(** * Dental practice back end: scheduling engine and intent resolution

  A shallow embedding of
  - [models/appointment.py]           (module [Model]),
  - [services/appointment_service.py] (module [AppointmentService]),
  - [utils/voice_processor.py]        (module [VoiceProcessor]),
  - the update handler of [api/appointment_api.py]
                                      (module [AppointmentApi]),
  together with the properties of the specification that concern them.

  Conventions.
  - A naive [datetime] is the integer number of microseconds since
    0001-01-01T00:00:00; [timedelta(minutes=m)] is [m * 60_000_000].
    [datetime.now()] is an input: every read of the clock made by the
    Python code is an explicit argument of the embedded function.
  - [self.appointments] is a [gmap string Appointment]; the objects
    stored in it are mutated in place by the Python code, which is an
    update of the map at the key that was looked up.
  - [Optional[str]] is [option string]; Python truthiness of such a
    value ([None] and the empty string are false) is [truthy]. *)

From Stdlib Require Import ZArith Lia String Ascii DecimalString Sorted.
From Stdlib Require Import DecimalPos DecimalN Permutation.
From stdpp Require Import gmap strings list fin_maps.
From Equations Require Import Equations.

Local Open Scope string_scope.
Local Open Scope Z_scope.

(* ===================================================================== *)
(** ** datetime / timedelta                                               *)
(* ===================================================================== *)

Module Time.

Definition us_per_minute : Z := 60000000.
Definition us_per_hour : Z := 3600000000.
Definition us_per_day : Z := 86400000000.

(** [timedelta(minutes=m)] and [timedelta(hours=h)]. *)
Definition minutes (m : Z) : Z := m * us_per_minute.
Definition hours (h : Z) : Z := h * us_per_hour.

(** [datetime.combine(d.date(), datetime.min.time().replace(hour=h))]:
    midnight of the calendar day of [d], plus [h] hours. *)
Definition midnight (d : Z) : Z := d - d mod us_per_day.
Definition at_hour (d : Z) (h : Z) : Z := midnight d + hours h.

End Time.

(* ===================================================================== *)
(** ** models/appointment.py                                              *)
(* ===================================================================== *)

Module Model.
Import Time.

Inductive AppointmentStatus :=
| SCHEDULED | CONFIRMED | IN_PROGRESS | COMPLETED | CANCELLED | NO_SHOW.

Inductive AppointmentType :=
| CONSULTATION | CLEANING | FILLING | ROOT_CANAL | EXTRACTION
| WHITENING | IMPLANT | EMERGENCY | FOLLOW_UP.

#[global] Instance AppointmentStatus_eq_dec : EqDecision AppointmentStatus.
Proof. solve_decision. Defined.
#[global] Instance AppointmentType_eq_dec : EqDecision AppointmentType.
Proof. solve_decision. Defined.

(** [.value] of the two enumerations. *)
Definition status_value (s : AppointmentStatus) : string :=
  match s with
  | SCHEDULED => "scheduled" | CONFIRMED => "confirmed"
  | IN_PROGRESS => "in_progress" | COMPLETED => "completed"
  | CANCELLED => "cancelled" | NO_SHOW => "no_show"
  end.

Definition type_value (t : AppointmentType) : string :=
  match t with
  | CONSULTATION => "consultation" | CLEANING => "cleaning"
  | FILLING => "filling" | ROOT_CANAL => "root_canal"
  | EXTRACTION => "extraction" | WHITENING => "whitening"
  | IMPLANT => "implant" | EMERGENCY => "emergency"
  | FOLLOW_UP => "follow_up"
  end.

(** Entries of [reminders_sent] and [treatment_notes]: dictionaries with
    the fixed keys written by [add_reminder_sent] / [add_treatment_note];
    the time stamps in them are kept as the ISO strings the code stores. *)
Record Reminder := { r_type : string; r_sent_at : string }.
Record TreatmentNote :=
  { t_note : string; t_dentist_id : string; t_timestamp : string }.

Record Appointment := mkAppointment
  { appointment_id : string;
    patient_id : string;
    appointment_type : AppointmentType;
    scheduled_date : Z;
    duration_minutes : Z;
    dentist_id : option string;
    notes : string;
    status : AppointmentStatus;
    created_at : Z;
    updated_at : Z;
    reminders_sent : list Reminder;
    treatment_notes : list TreatmentNote }.

(** [Appointment.__init__]; the two clock reads are [now_c], [now_u]. *)
Definition init (now_c now_u : Z) (aid pid : string) (ty : AppointmentType)
    (sd dur : Z) (did : option string) (nts : string) : Appointment :=
  {| appointment_id := aid; patient_id := pid; appointment_type := ty;
     scheduled_date := sd; duration_minutes := dur; dentist_id := did;
     notes := nts; status := SCHEDULED;
     created_at := now_c; updated_at := now_u;
     reminders_sent := []; treatment_notes := [] |}.

(** Attribute assignments. *)
Definition set_status (s : AppointmentStatus) (a : Appointment) :=
  mkAppointment (appointment_id a) (patient_id a) (appointment_type a)
    (scheduled_date a) (duration_minutes a) (dentist_id a) (notes a) s
    (created_at a) (updated_at a) (reminders_sent a) (treatment_notes a).
Definition set_updated_at (t : Z) (a : Appointment) :=
  mkAppointment (appointment_id a) (patient_id a) (appointment_type a)
    (scheduled_date a) (duration_minutes a) (dentist_id a) (notes a)
    (status a) (created_at a) t (reminders_sent a) (treatment_notes a).
Definition set_created_at (t : Z) (a : Appointment) :=
  mkAppointment (appointment_id a) (patient_id a) (appointment_type a)
    (scheduled_date a) (duration_minutes a) (dentist_id a) (notes a)
    (status a) t (updated_at a) (reminders_sent a) (treatment_notes a).
Definition set_scheduled_date (t : Z) (a : Appointment) :=
  mkAppointment (appointment_id a) (patient_id a) (appointment_type a)
    t (duration_minutes a) (dentist_id a) (notes a)
    (status a) (created_at a) (updated_at a) (reminders_sent a)
    (treatment_notes a).
Definition set_notes (n : string) (a : Appointment) :=
  mkAppointment (appointment_id a) (patient_id a) (appointment_type a)
    (scheduled_date a) (duration_minutes a) (dentist_id a) n
    (status a) (created_at a) (updated_at a) (reminders_sent a)
    (treatment_notes a).
Definition set_reminders_sent (l : list Reminder) (a : Appointment) :=
  mkAppointment (appointment_id a) (patient_id a) (appointment_type a)
    (scheduled_date a) (duration_minutes a) (dentist_id a) (notes a)
    (status a) (created_at a) (updated_at a) l (treatment_notes a).
Definition set_treatment_notes (l : list TreatmentNote) (a : Appointment) :=
  mkAppointment (appointment_id a) (patient_id a) (appointment_type a)
    (scheduled_date a) (duration_minutes a) (dentist_id a) (notes a)
    (status a) (created_at a) (updated_at a) (reminders_sent a) l.

(** Values held by the dictionary built by [to_dict]. *)
Inductive pyvalue :=
| PyNone
| PyStr (s : string)
| PyInt (n : Z)
| PyReminders (l : list Reminder)
| PyTreatmentNotes (l : list TreatmentNote).

(** [to_dict].  [isoformat] is [datetime.isoformat] of the Python
    library. *)
Definition to_dict (isoformat : Z → string) (a : Appointment)
  : gmap string pyvalue :=
  list_to_map
    [ ("appointment_id", PyStr (appointment_id a));
      ("patient_id", PyStr (patient_id a));
      ("appointment_type", PyStr (type_value (appointment_type a)));
      ("scheduled_date", PyStr (isoformat (scheduled_date a)));
      ("duration_minutes", PyInt (duration_minutes a));
      ("dentist_id",
        match dentist_id a with Some d => PyStr d | None => PyNone end);
      ("notes", PyStr (notes a));
      ("status", PyStr (status_value (status a)));
      ("created_at", PyStr (isoformat (created_at a)));
      ("updated_at", PyStr (isoformat (updated_at a)));
      ("reminders_sent", PyReminders (reminders_sent a));
      ("treatment_notes", PyTreatmentNotes (treatment_notes a)) ].

(** [AppointmentType(value)] and [AppointmentStatus(value)]: the member
    with that value, if any ([ValueError] otherwise). *)
Definition type_of_value (v : string) : option AppointmentType :=
  List.find (λ t, String.eqb (type_value t) v)
    [CONSULTATION; CLEANING; FILLING; ROOT_CANAL; EXTRACTION; WHITENING;
     IMPLANT; EMERGENCY; FOLLOW_UP].

Definition status_of_value (v : string) : option AppointmentStatus :=
  List.find (λ t, String.eqb (status_value t) v)
    [SCHEDULED; CONFIRMED; IN_PROGRESS; COMPLETED; CANCELLED; NO_SHOW].

(** [update_status]: overwrite the status, stamp [updated_at]. *)
Definition update_status (now : Z) (new_status : AppointmentStatus)
    (a : Appointment) : Appointment :=
  set_updated_at now (set_status new_status a).

(** [get_end_time]. *)
Definition get_end_time (a : Appointment) : Z :=
  scheduled_date a + minutes (duration_minutes a).

(** [is_conflict_with]. *)
Definition is_conflict_with (a other : Appointment) : bool :=
  if (scheduled_date a <? get_end_time other)
     && (get_end_time a >? scheduled_date other)
  then true else false.

(** [can_be_cancelled]: more than 24 hours before the appointment. *)
Definition can_be_cancelled (now : Z) (a : Appointment) : bool :=
  scheduled_date a >? now + hours 24.

(** [add_treatment_note]; [now_t] is the clock read of the time stamp,
    [now_u] that of [updated_at]. *)
Definition add_treatment_note (isoformat : Z → string) (now_t now_u : Z)
    (note dentist : string) (a : Appointment) : Appointment :=
  set_updated_at now_u
    (set_treatment_notes
       (treatment_notes a ++
          [ {| t_note := note; t_dentist_id := dentist;
               t_timestamp := isoformat now_t |} ])%list
       a).

(** [is_upcoming]. *)
Definition is_upcoming (now : Z) (hrs : Z) (a : Appointment) : bool :=
  let future_time := now + hours hrs in
  (scheduled_date a >? now) && (scheduled_date a <=? future_time).

(** The members of the two enumerations, in declaration order. *)
Definition all_statuses : list AppointmentStatus :=
  [SCHEDULED; CONFIRMED; IN_PROGRESS; COMPLETED; CANCELLED; NO_SHOW].
Definition all_types : list AppointmentType :=
  [CONSULTATION; CLEANING; FILLING; ROOT_CANAL; EXTRACTION; WHITENING;
   IMPLANT; EMERGENCY; FOLLOW_UP].

End Model.

(* ===================================================================== *)
(** ** services/appointment_service.py                                    *)
(* ===================================================================== *)

Module AppointmentService.
Import Time Model.

(** Truth value of an [Optional[str]]. *)
Definition truthy (d : option string) : bool :=
  match d with
  | Some s => negb (String.eqb s "")
  | None => false
  end.

(** First [continue] of the scan: cancelled and no-show appointments. *)
Definition is_inactive (a : Appointment) : bool :=
  bool_decide (status a ∈ [CANCELLED; NO_SHOW]).

(** Second [continue] of the scan:
    [dentist_id and appointment.dentist_id
     and appointment.dentist_id != dentist_id]. *)
Definition other_dentist (did : option string) (a : Appointment) : bool :=
  truthy did && truthy (dentist_id a) && bool_decide (dentist_id a ≠ did).

(** The final test of the scan. *)
Definition overlaps (sd end_time : Z) (a : Appointment) : bool :=
  (sd <? get_end_time a) && (end_time >? scheduled_date a).

(** The conflict rule between a request and one appointment: the part
    of the loop body after the status filter. *)
Definition conflict_rule (sd dur : Z) (did : option string)
    (a : Appointment) : bool :=
  if other_dentist did a then false
  else overlaps sd (sd + minutes dur) a.

(** The whole loop body: [true] iff this appointment makes
    [_has_conflict] return [True]. *)
Definition blocks (sd dur : Z) (did : option string)
    (a : Appointment) : bool :=
  if is_inactive a then false else conflict_rule sd dur did a.

(** [_has_conflict]: the loop over [self.appointments.values()]. *)
Definition has_conflict (sd dur : Z) (did : option string)
    (store : gmap string Appointment) : bool :=
  existsb (blocks sd dur did) (map_to_list store).*2.

(** [f"{n:04d}"] for a non-negative [n]. *)
Definition zfill4 (n : N) : string :=
  let s := NilZero.string_of_uint (N.to_uint n) in
  String.concat "" (replicate (4 - String.length s)%nat "0") ++ s.

(** [f"A{len(self.appointments) + 1:04d}"]. *)
Definition next_id (store : gmap string Appointment) : string :=
  "A" ++ zfill4 (N.of_nat (size store) + 1).

(** Reading a dictionary entry at the type of the attribute it is
    assigned to; an entry of another type is outside the typed model and
    reported as a failure, like a missing key. *)
Definition as_str (v : pyvalue) : option string :=
  match v with PyStr s => Some s | _ => None end.
Definition as_int (v : pyvalue) : option Z :=
  match v with PyInt n => Some n | _ => None end.
Definition as_opt_str (v : pyvalue) : option (option string) :=
  match v with
  | PyNone => Some None
  | PyStr s => Some (Some s)
  | _ => None
  end.
Definition as_reminders (v : pyvalue) : option (list Reminder) :=
  match v with PyReminders l => Some l | _ => None end.
Definition as_treatment_notes (v : pyvalue) : option (list TreatmentNote) :=
  match v with PyTreatmentNotes l => Some l | _ => None end.

(** [_create_appointment_from_dict]; [None] stands for a raised
    exception ([KeyError], [ValueError]).  [fromisoformat] is
    [datetime.fromisoformat] of the Python library; [now_c], [now_u] are
    the clock reads of the constructor. *)
Definition create_appointment_from_dict (fromisoformat : string → option Z)
    (now_c now_u : Z) (data : gmap string pyvalue) : option Appointment :=
  aid ← data !! "appointment_id" ≫= as_str;
  pid ← data !! "patient_id" ≫= as_str;
  ty ← (data !! "appointment_type" ≫= as_str) ≫= type_of_value;
  sd ← (data !! "scheduled_date" ≫= as_str) ≫= fromisoformat;
  dur ← data !! "duration_minutes" ≫= as_int;
  did ← as_opt_str (default PyNone (data !! "dentist_id"));
  nts ← as_str (default (PyStr "") (data !! "notes"));
  let appointment := init now_c now_u aid pid ty sd dur did nts in
  st ← (data !! "status" ≫= as_str) ≫= status_of_value;
  let appointment := set_status st appointment in
  rs ← as_reminders (default (PyReminders []) (data !! "reminders_sent"));
  let appointment := set_reminders_sent rs appointment in
  tn ← as_treatment_notes
         (default (PyTreatmentNotes []) (data !! "treatment_notes"));
  let appointment := set_treatment_notes tn appointment in
  ca ← (data !! "created_at" ≫= as_str) ≫= fromisoformat;
  let appointment := set_created_at ca appointment in
  ua ← (data !! "updated_at" ≫= as_str) ≫= fromisoformat;
  Some (set_updated_at ua appointment).

(** [create_appointment]; returns the result and the store. *)
Definition create_appointment (now_c now_u : Z) (pid : string)
    (ty : AppointmentType) (sd dur : Z) (did : option string)
    (nts : string) (store : gmap string Appointment)
  : option Appointment * gmap string Appointment :=
  if has_conflict sd dur did store then (None, store)
  else
    let aid := next_id store in
    let appointment := init now_c now_u aid pid ty sd dur did nts in
    (Some appointment, <[aid := appointment]> store).

(** [get_appointment]. *)
Definition get_appointment (aid : string)
    (store : gmap string Appointment) : option Appointment :=
  store !! aid.

(** [cancel_appointment]; [now_check] is the clock read of
    [can_be_cancelled], [now_u] that of [update_status]. *)
Definition cancel_appointment (now_check now_u : Z) (aid reason : string)
    (store : gmap string Appointment)
  : bool * gmap string Appointment :=
  match get_appointment aid store with
  | Some appointment =>
      if can_be_cancelled now_check appointment then
        let a1 := update_status now_u CANCELLED appointment in
        let a2 :=
          set_notes
            (notes a1 ++
               (if negb (String.eqb reason "")
                then String "010" "Cancelled: " ++ reason
                else String "010" "Cancelled"))
            a1 in
        (true, <[aid := a2]> store)
      else (false, store)
  | None => (false, store)
  end.

(** [reschedule_appointment]. *)
Definition reschedule_appointment (now : Z) (aid : string) (new_date : Z)
    (store : gmap string Appointment)
  : bool * gmap string Appointment :=
  match get_appointment aid store with
  | None => (false, store)
  | Some appointment =>
      if has_conflict new_date (duration_minutes appointment)
           (dentist_id appointment) store
      then (false, store)
      else
        (true,
         <[aid := set_updated_at now
                    (set_scheduled_date new_date appointment)]> store)
  end.

(** The [while] loop of [get_available_slots]; [slots] is returned in
    the order of the [append]s. *)
Equations? slots_loop (dur : Z) (did : option string)
    (store : gmap string Appointment) (end_time current_time : Z) : list Z
    by wf (Z.to_nat ((end_time - minutes dur - current_time) / minutes 30 + 1))
          lt :=
slots_loop dur did store end_time current_time
  with decide (current_time + minutes dur <= end_time) => {
  | left _ :=
      if negb (has_conflict current_time dur did store)
      then current_time
             :: slots_loop dur did store end_time (current_time + minutes 30)
      else slots_loop dur did store end_time (current_time + minutes 30)
  | right _ := [] }.
Proof.
  all: unfold minutes, us_per_minute in *.
  all: replace (end_time - dur * 60000000 - (current_time + 30 * 60000000))
         with (end_time - dur * 60000000 - current_time
               + (-1) * (30 * 60000000)) by lia.
  all: rewrite Z.div_add by lia.
  all: assert (0 <= (end_time - dur * 60000000 - current_time)
                      / (30 * 60000000)) by (apply Z.div_pos; lia).
  all: lia.
Qed.

(** [get_available_slots]. *)
Definition get_available_slots (date dur : Z) (did : option string)
    (store : gmap string Appointment) : list Z :=
  let start_time := at_hour date 9 in
  let end_time := at_hour date 17 in
  slots_loop dur did store end_time start_time.

(** [self.appointments.values()].  A [gmap] does not record the order of
    insertion: the lists below are in the iteration order of the map,
    and what is proved of them does not depend on that order. *)
Definition appointments_values (store : gmap string Appointment)
  : list Appointment :=
  (map_to_list store).*2.

(** [get_appointments_by_dentist], [.._by_date], [.._by_status]. *)
Definition get_appointments_by_dentist (did : string)
    (store : gmap string Appointment) : list Appointment :=
  List.filter (λ app, bool_decide (dentist_id app = Some did))
    (appointments_values store).

Definition get_appointments_by_date (date : Z)
    (store : gmap string Appointment) : list Appointment :=
  List.filter (λ app, midnight (scheduled_date app) =? midnight date)
    (appointments_values store).

Definition get_appointments_by_status (st : AppointmentStatus)
    (store : gmap string Appointment) : list Appointment :=
  List.filter (λ app, bool_decide (status app = st))
    (appointments_values store).

(** [update_appointment_status]. *)
Definition update_appointment_status (now : Z) (aid : string)
    (new_status : AppointmentStatus) (store : gmap string Appointment)
  : bool * gmap string Appointment :=
  match get_appointment aid store with
  | Some appointment =>
      (true, <[aid := update_status now new_status appointment]> store)
  | None => (false, store)
  end.

(** [get_upcoming_appointments] and [get_overdue_appointments]. *)
Definition get_upcoming_appointments (now : Z) (hrs : Z)
    (store : gmap string Appointment) : list Appointment :=
  let future_time := now + hours hrs in
  List.filter
    (λ app,
       bool_decide (status app ∈ [SCHEDULED; CONFIRMED])
       && (scheduled_date app >? now)
       && (scheduled_date app <=? future_time))
    (appointments_values store).

Definition get_overdue_appointments (now : Z)
    (store : gmap string Appointment) : list Appointment :=
  List.filter
    (λ app,
       bool_decide (status app ∈ [SCHEDULED; CONFIRMED])
       && (scheduled_date app <? now))
    (appointments_values store).

(** [add_treatment_note] of the service. *)
Definition add_treatment_note (isoformat : Z → string) (now_t now_u : Z)
    (aid note dentist : string) (store : gmap string Appointment)
  : bool * gmap string Appointment :=
  match get_appointment aid store with
  | Some appointment =>
      (true,
       <[aid := Model.add_treatment_note isoformat now_t now_u note dentist
                  appointment]> store)
  | None => (false, store)
  end.

(** The dictionary returned by [get_appointment_statistics]; the two
    distributions are keyed by the [.value] of the members. *)
Record Statistics :=
  { total_appointments : nat;
    status_distribution : gmap string nat;
    type_distribution : gmap string nat;
    upcoming_appointments : nat;
    overdue_appointments : nat }.

(** [get_appointment_statistics]; [now_up] and [now_over] are the clock
    reads of the two listings it calls. *)
Definition get_appointment_statistics (now_up now_over : Z)
    (store : gmap string Appointment) : Statistics :=
  {| total_appointments := size store;
     status_distribution :=
       foldl (λ counts st,
                <[status_value st :=
                    length (get_appointments_by_status st store)]> counts)
         ∅ all_statuses;
     type_distribution :=
       foldl (λ counts ty,
                <[type_value ty :=
                    length (List.filter
                              (λ app, bool_decide (appointment_type app = ty))
                              (appointments_values store))]> counts)
         ∅ all_types;
     upcoming_appointments :=
       length (get_upcoming_appointments now_up 24 store);
     overdue_appointments :=
       length (get_overdue_appointments now_over store) |}.

(** [_save_appointments]: the dictionary handed to [json.dump]. *)
Definition save_appointments (isoformat : Z → string)
    (store : gmap string Appointment) : gmap string (gmap string pyvalue) :=
  to_dict isoformat <$> store.

(** The loop of [_load_appointments] over the values of the parsed file,
    inside its [try]: the first dictionary that cannot be read ends the
    loop, and what was stored before stays.  The constructor's clock
    reads [now_c], [now_u] are overwritten before an appointment is
    stored. *)
Fixpoint load_loop (fromisoformat : string → option Z) (now_c now_u : Z)
    (entries : list (gmap string pyvalue))
    (appointments : gmap string Appointment) : gmap string Appointment :=
  match entries with
  | [] => appointments
  | appointment_data :: rest =>
      match create_appointment_from_dict fromisoformat now_c now_u
              appointment_data with
      | Some appointment =>
          load_loop fromisoformat now_c now_u rest
            (<[appointment_id appointment := appointment]> appointments)
      | None => appointments
      end
  end.

(** [_load_appointments] on the parsed content of an existing file,
    starting from the empty [self.appointments] of [__init__]. *)
Definition load_appointments (fromisoformat : string → option Z)
    (now_c now_u : Z) (data : gmap string (gmap string pyvalue))
  : gmap string Appointment :=
  load_loop fromisoformat now_c now_u (map_to_list data).*2 ∅.

End AppointmentService.

(* ===================================================================== *)
(** ** utils/voice_processor.py                                           *)
(* ===================================================================== *)

(** Text is a [string] of 8-bit characters.  Case conversion, white
    space and the classes [\s], [\w], [\d] are those of Python on the
    ASCII characters; a character above 127 is left unchanged by [lower]
    and belongs to no class. *)

Module VoiceProcessor.
Local Open Scope N_scope.

Definition is_space (c : ascii) : bool :=
  let n := N_of_ascii c in
  ((9 <=? n) && (n <=? 13)) || ((28 <=? n) && (n <=? 32)).

Definition is_digit (c : ascii) : bool :=
  let n := N_of_ascii c in (48 <=? n) && (n <=? 57).

Definition is_upper (c : ascii) : bool :=
  let n := N_of_ascii c in (65 <=? n) && (n <=? 90).

Definition is_word (c : ascii) : bool :=
  let n := N_of_ascii c in
  is_digit c || is_upper c || ((97 <=? n) && (n <=? 122)) || (n =? 95).

Definition lower_char (c : ascii) : ascii :=
  if is_upper c then ascii_of_N (N_of_ascii c + 32) else c.

(** [str.lower] and [str.strip]. *)
Definition lower (s : list ascii) : list ascii := map lower_char s.

Fixpoint lstrip (s : list ascii) : list ascii :=
  match s with
  | c :: s' => if is_space c then lstrip s' else s
  | [] => []
  end.

Definition strip (s : list ascii) : list ascii :=
  reverse (lstrip (reverse (lstrip s))).

(** [needle in text] on strings. *)
Fixpoint starts_with (p s : list ascii) : option (list ascii) :=
  match p, s with
  | [], _ => Some s
  | a :: p', b :: s' => if Ascii.eqb a b then starts_with p' s' else None
  | _ :: _, [] => None
  end.

Fixpoint contains (needle text : list ascii) : bool :=
  match starts_with needle text with
  | Some _ => true
  | None => match text with
            | [] => false
            | _ :: text' => contains needle text'
            end
  end.

(** *** Regular expressions

    The constructs that occur in the pattern tables of the source.  A
    parenthesised group is the grouped expression: no pattern has a back
    reference, and only [group(0)] is ever read. *)

Inductive cclass :=
| Space                       (* \s *)
| Word                        (* \w *)
| Digit                       (* \d *)
| OneOf (cs : list ascii).    (* [...] *)

Inductive regex :=
| Lit (s : string)            (* literal characters *)
| Cls (c : cclass)            (* one character of a class *)
| Cat (r1 r2 : regex)         (* r1 r2 *)
| Alt (r1 r2 : regex)         (* r1|r2 *)
| Opt (r : regex)             (* r?  (greedy) *)
| Plus (c : cclass)           (* c+  (greedy) *)
| Rep (c : cclass) (lo hi : nat). (* c{lo,hi}  (greedy) *)

Definition in_class (c : cclass) (x : ascii) : bool :=
  match c with
  | Space => is_space x
  | Word => is_word x
  | Digit => is_digit x
  | OneOf cs => existsb (Ascii.eqb x) cs
  end.

(** Backtracking matcher in the order of Python's engine: alternatives
    left to right, greedy repetition.  [k] is the continuation applied to
    the rest of the text; the result is the rest after the whole match. *)
Fixpoint plus_cls (c : cclass) (s : list ascii)
    (k : list ascii → option (list ascii)) : option (list ascii) :=
  match s with
  | x :: s' =>
      if in_class c x then
        match plus_cls c s' k with
        | Some r => Some r
        | None => k s'
        end
      else None
  | [] => None
  end.

Fixpoint rep_cls (c : cclass) (lo hi : nat) (s : list ascii)
    (k : list ascii → option (list ascii)) : option (list ascii) :=
  let stop := if Nat.eqb lo 0 then k s else None in
  match hi with
  | O => stop
  | S hi' =>
      match s with
      | x :: s' =>
          if in_class c x then
            match rep_cls c (Nat.pred lo) hi' s' k with
            | Some r => Some r
            | None => stop
            end
          else stop
      | [] => stop
      end
  end.

Fixpoint rmatch (r : regex) (s : list ascii)
    (k : list ascii → option (list ascii)) : option (list ascii) :=
  match r with
  | Lit l =>
      match starts_with (list_ascii_of_string l) s with
      | Some s' => k s'
      | None => None
      end
  | Cls c =>
      match s with
      | x :: s' => if in_class c x then k s' else None
      | [] => None
      end
  | Cat r1 r2 => rmatch r1 s (λ s', rmatch r2 s' k)
  | Alt r1 r2 =>
      match rmatch r1 s k with
      | Some res => Some res
      | None => rmatch r2 s k
      end
  | Opt r1 =>
      match rmatch r1 s k with
      | Some res => Some res
      | None => k s
      end
  | Plus c => plus_cls c s k
  | Rep c lo hi => rep_cls c lo hi s k
  end.

(** [re.search(pattern, text)]: the leftmost match; the result is
    [match.group(0)], [None] when there is no match. *)
Fixpoint re_search (r : regex) (s : list ascii) : option (list ascii) :=
  match rmatch r s Some with
  | Some rest => Some (take (length s - length rest)%nat s)
  | None =>
      match s with
      | [] => None
      | _ :: s' => re_search r s'
      end
  end.

(** Writing the patterns: a sequence, and an alternation of literals. *)
Fixpoint cat (rs : list regex) : regex :=
  match rs with
  | [] => Lit ""
  | [r] => r
  | r :: rs' => Cat r (cat rs')
  end.

Fixpoint alt (rs : list regex) : regex :=
  match rs with
  | [] => Lit ""
  | [r] => r
  | r :: rs' => Alt r (alt rs')
  end.

Definition words (ws : list string) : regex := alt (Lit <$> ws).
Definition sp : regex := Plus Space.

(** [self.dental_keywords]. *)
Definition dental_keywords : list (string * list string) :=
  [ ("appointment",
      ["appointment"; "schedule"; "book"; "reschedule"; "cancel"]);
    ("insurance", ["insurance"; "coverage"; "provider"; "policy"]);
    ("services",
      ["cleaning"; "filling"; "whitening"; "checkup"; "emergency"]);
    ("hours", ["hours"; "open"; "closed"; "available"; "time"]);
    ("payment", ["payment"; "bill"; "cost"; "price"; "invoice"]);
    ("emergency", ["emergency"; "urgent"; "pain"; "hurt"; "broken"]) ].

(** [self.intent_patterns], in the order of the dictionary literal. *)
Definition intent_patterns : list (string * list regex) :=
  [ ("schedule_appointment",
      [ (* (schedule|book|make)\s+(an?\s+)?appointment *)
        cat [words ["schedule"; "book"; "make"]; sp;
             Opt (cat [Lit "a"; Opt (Lit "n"); sp]); Lit "appointment"];
        (* (want|need)\s+(to\s+)?(schedule|book)\s+(an?\s+)?appointment *)
        cat [words ["want"; "need"]; sp; Opt (cat [Lit "to"; sp]);
             words ["schedule"; "book"]; sp;
             Opt (cat [Lit "a"; Opt (Lit "n"); sp]); Lit "appointment"];
        (* appointment\s+(for|on)\s+(\w+) *)
        cat [Lit "appointment"; sp; words ["for"; "on"]; sp; Plus Word];
        (* (when|what)\s+(time|day)\s+(are|do)\s+(you|they)\s+(have|available) *)
        cat [words ["when"; "what"]; sp; words ["time"; "day"]; sp;
             words ["are"; "do"]; sp; words ["you"; "they"]; sp;
             words ["have"; "available"]] ]);
    ("check_availability",
      [ (* (available|open|free)\s+(time|slot|appointment) *)
        cat [words ["available"; "open"; "free"]; sp;
             words ["time"; "slot"; "appointment"]];
        (* (what|when)\s+(are|do)\s+(you|they)\s+(have|available) *)
        cat [words ["what"; "when"]; sp; words ["are"; "do"]; sp;
             words ["you"; "they"]; sp; words ["have"; "available"]];
        (* (next|upcoming)\s+(available|open)\s+(time|slot) *)
        cat [words ["next"; "upcoming"]; sp; words ["available"; "open"];
             sp; words ["time"; "slot"]] ]);
    ("insurance_inquiry",
      [ (* (accept|take|work\s+with)\s+(insurance|coverage) *)
        cat [alt [Lit "accept"; Lit "take";
                  cat [Lit "work"; sp; Lit "with"]]; sp;
             words ["insurance"; "coverage"]];
        (* (what|which)\s+(insurance|provider)\s+(do\s+you|are\s+accepted) *)
        cat [words ["what"; "which"]; sp; words ["insurance"; "provider"];
             sp;
             alt [cat [Lit "do"; sp; Lit "you"];
                  cat [Lit "are"; sp; Lit "accepted"]]];
        (* (my|the)\s+(insurance|provider)\s+(is|are) *)
        cat [words ["my"; "the"]; sp; words ["insurance"; "provider"]; sp;
             words ["is"; "are"]];
        (* (coverage|benefits)\s+(for|of) *)
        cat [words ["coverage"; "benefits"]; sp; words ["for"; "of"]] ]);
    ("service_inquiry",
      [ (* (what|which)\s+(services|treatments)\s+(do\s+you|are\s+offered) *)
        cat [words ["what"; "which"]; sp; words ["services"; "treatments"];
             sp;
             alt [cat [Lit "do"; sp; Lit "you"];
                  cat [Lit "are"; sp; Lit "offered"]]];
        (* (cost|price|how\s+much)\s+(for|is)\s+(\w+) *)
        cat [alt [Lit "cost"; Lit "price";
                  cat [Lit "how"; sp; Lit "much"]]; sp;
             words ["for"; "is"]; sp; Plus Word];
        (* (cleaning|filling|whitening|checkup)\s+(cost|price) *)
        cat [words ["cleaning"; "filling"; "whitening"; "checkup"]; sp;
             words ["cost"; "price"]] ]);
    ("office_hours",
      [ (* (what|when)\s+(are|do)\s+(you|they)\s+(open|close) *)
        cat [words ["what"; "when"]; sp; words ["are"; "do"]; sp;
             words ["you"; "they"]; sp; words ["open"; "close"]];
        (* (hours|schedule)\s+(of\s+operation)? *)
        cat [words ["hours"; "schedule"]; sp;
             Opt (cat [Lit "of"; sp; Lit "operation"])];
        (* (open|closed)\s+(on|during) *)
        cat [words ["open"; "closed"]; sp; words ["on"; "during"]] ]);
    ("emergency",
      [ (* (emergency|urgent|pain|hurt) *)
        words ["emergency"; "urgent"; "pain"; "hurt"];
        (* (broken|cracked|chipped)\s+(tooth|teeth) *)
        cat [words ["broken"; "cracked"; "chipped"]; sp;
             words ["tooth"; "teeth"]];
        (* (severe|bad|terrible)\s+(pain|ache) *)
        cat [words ["severe"; "bad"; "terrible"]; sp;
             words ["pain"; "ache"]] ]) ].

(** [date_patterns] of [extract_entities]. *)
Definition date_patterns : list regex :=
  [ (* (today|tomorrow|next\s+\w+) *)
    alt [Lit "today"; Lit "tomorrow"; cat [Lit "next"; sp; Plus Word]];
    (* (\d{1,2})[/-](\d{1,2})[/-](\d{2,4}) *)
    cat [Rep Digit 1 2; Cls (OneOf ["/"; "-"]%char); Rep Digit 1 2;
         Cls (OneOf ["/"; "-"]%char); Rep Digit 2 4];
    (* (monday|tuesday|wednesday|thursday|friday|saturday|sunday) *)
    words ["monday"; "tuesday"; "wednesday"; "thursday"; "friday";
           "saturday"; "sunday"];
    (* (morning|afternoon|evening|night) *)
    words ["morning"; "afternoon"; "evening"; "night"] ].

Definition insurance_providers : list string :=
  ["delta dental"; "aetna"; "cigna"; "blue cross"; "metlife";
   "unitedhealthcare"].

Definition urgency_words : list string :=
  ["severe"; "bad"; "terrible"; "excruciating"; "unbearable"].

(** [self.dental_keywords[category]]. *)
Definition keywords (category : string) : list string :=
  match List.find (λ e, String.eqb e.1 category) dental_keywords with
  | Some e => e.2
  | None => []
  end.

(** [for pattern in patterns: match = re.search(...); if match: ... break]:
    [group(0)] of the first pattern that matches. *)
Fixpoint first_match (patterns : list regex) (text : list ascii)
  : option (list ascii) :=
  match patterns with
  | [] => None
  | pattern :: rest =>
      match re_search pattern text with
      | Some g => Some g
      | None => first_match rest text
      end
  end.

(** [for w in ws: if w in text: ... break]: the first word contained. *)
Fixpoint first_contained (ws : list string) (text : list ascii)
  : option string :=
  match ws with
  | [] => None
  | w :: rest =>
      if contains (list_ascii_of_string w) text then Some w
      else first_contained rest text
  end.

(** [extract_entities]. *)
Definition extract_entities (text : list ascii) (intent : string)
  : gmap string string :=
  let entities : gmap string string :=
    {[ "original_text" := string_of_list_ascii text ]} in
  if String.eqb intent "schedule_appointment" then
    let entities :=
      match first_match date_patterns text with
      | Some g => <["preferred_time" := string_of_list_ascii g]> entities
      | None => entities
      end in
    match first_contained (keywords "services") text with
    | Some service => <["service_type" := service]> entities
    | None => entities
    end
  else if String.eqb intent "insurance_inquiry" then
    match first_contained insurance_providers text with
    | Some provider => <["insurance_provider" := provider]> entities
    | None => entities
    end
  else if String.eqb intent "service_inquiry" then
    match first_contained (keywords "services") text with
    | Some service => <["service_type" := service]> entities
    | None => entities
    end
  else if String.eqb intent "emergency" then
    match first_contained urgency_words text with
    | Some _ => <["urgency_level" := "high"]> entities
    | None => <["urgency_level" := "medium"]> entities
    end
  else entities.

(** The inner loop of [extract_intent]: does some pattern of the list,
    tried in order, match? *)
Fixpoint any_pattern (patterns : list regex) (text : list ascii) : bool :=
  match patterns with
  | [] => false
  | pattern :: rest =>
      match re_search pattern text with
      | Some _ => true
      | None => any_pattern rest text
      end
  end.

(** The outer loop of [extract_intent] over the items of the table. *)
Fixpoint scan_intents (table : list (string * list regex))
    (text : list ascii) : option (string * gmap string string) :=
  match table with
  | [] => None
  | (intent, patterns) :: rest =>
      if any_pattern patterns text
      then Some (intent, extract_entities text intent)
      else scan_intents rest text
  end.

(** [extract_intent]. *)
Definition extract_intent (text : string)
  : string * gmap string string :=
  let text := strip (lower (list_ascii_of_string text)) in
  match scan_intents intent_patterns text with
  | Some r => r
  | None => ("general_inquiry", {[ "query" := string_of_list_ascii text ]})
  end.

(** [entities.get(key, default)]. *)
Definition get_default (entities : gmap string string) (key default : string)
  : string :=
  match entities !! key with
  | Some v => v
  | None => default
  end.

(** Truth value of a string. *)
Definition nonempty (v : string) : bool := negb (String.eqb v "").

(** [_generate_appointment_response]. *)
Definition generate_appointment_response (entities : gmap string string)
  : string :=
  let service_type := get_default entities "service_type" "appointment" in
  let preferred_time := get_default entities "preferred_time" "" in
  let response :=
    ("I'd be happy to help you schedule a " ++ service_type
       ++ " appointment.")%string in
  let response :=
    if nonempty preferred_time
    then (response ++ " You mentioned " ++ preferred_time ++ ". ")%string
    else response in
  (response ++
     "Let me check our available slots. What's your preferred date and time?")%string.

(** [_generate_availability_response]. *)
Definition generate_availability_response (entities : gmap string string)
  : string :=
  "I can check our available appointment slots for you. What date are you looking for?".

(** [_generate_insurance_response]. *)
Definition generate_insurance_response (entities : gmap string string)
  : string :=
  let provider := get_default entities "insurance_provider" "" in
  if nonempty provider
  then ("Yes, we do accept " ++ provider
          ++ " insurance. Would you like me to check your specific coverage?")%string
  else "We accept most major insurance providers including Delta Dental, Aetna, Cigna, Blue Cross Blue Shield, MetLife, and UnitedHealthcare. Which provider do you have?".

(** [_generate_service_response]. *)
Definition generate_service_response (entities : gmap string string)
  : string :=
  let service_type := get_default entities "service_type" "" in
  if nonempty service_type
  then ("For " ++ service_type
          ++ ", our prices typically range from $100 to $500 depending on the specific treatment needed. Would you like me to schedule a consultation to get a more accurate estimate?")%string
  else "We offer a wide range of dental services including cleanings, fillings, root canals, teeth whitening, and emergency care. Which service are you interested in?".

(** [_generate_hours_response]. *)
Definition generate_hours_response (entities : gmap string string)
  : string :=
  "Our office hours are Monday through Friday 8 AM to 6 PM, Saturday 9 AM to 3 PM, and we're closed on Sundays. We also offer emergency appointments outside of regular hours.".

(** [_generate_emergency_response]. *)
Definition emergency_line_response : string :=
  "I understand this is an emergency. Please call our emergency line at (555) 123-4567 immediately, or if it's after hours, call (555) 999-8888 for urgent dental care.".
Definition emergency_booking_response : string :=
  "I can help you schedule an emergency appointment. How soon do you need to be seen?".

Definition generate_emergency_response (entities : gmap string string)
  : string :=
  let urgency := get_default entities "urgency_level" "medium" in
  if String.eqb urgency "high" then emergency_line_response
  else emergency_booking_response.

(** [_generate_general_response]. *)
Definition generate_general_response (entities : gmap string string)
  : string :=
  let query := list_ascii_of_string (get_default entities "query" "") in
  if existsb (λ keyword, contains (list_ascii_of_string keyword) query)
       (keywords "appointment")
  then "I can help you with appointment scheduling. Would you like to book an appointment?"
  else if existsb (λ keyword, contains (list_ascii_of_string keyword) query)
            (keywords "insurance")
  then "I can help you with insurance questions. What would you like to know about your coverage?"
  else "I'm here to help with your dental care needs. How can I assist you today?".

(** [generate_response]. *)
Definition generate_response (intent : string)
    (entities : gmap string string) : string :=
  if String.eqb intent "schedule_appointment"
  then generate_appointment_response entities
  else if String.eqb intent "check_availability"
  then generate_availability_response entities
  else if String.eqb intent "insurance_inquiry"
  then generate_insurance_response entities
  else if String.eqb intent "service_inquiry"
  then generate_service_response entities
  else if String.eqb intent "office_hours"
  then generate_hours_response entities
  else if String.eqb intent "emergency"
  then generate_emergency_response entities
  else generate_general_response entities.

(** The dictionary returned by [process_voice_query]: its two shapes. *)
Inductive QueryResult :=
| QueryFailure (error response : string)
| QuerySuccess (original_text intent : string)
    (entities : gmap string string) (response : string).

(** [process_voice_query]; [heard] is what [listen_for_speech] returns
    when it is called. *)
Definition process_voice_query (text : option string)
    (heard : option string) : QueryResult :=
  let truthy_text (t : option string) :=
    match t with Some v => nonempty v | None => false end in
  let text := if truthy_text text then text else heard in
  match text with
  | Some v =>
      if nonempty v then
        let '(intent, entities) := extract_intent v in
        let response := generate_response intent entities in
        QuerySuccess v intent entities response
      else
        QueryFailure "No speech detected"
          "I didn't catch that. Could you please repeat?"
  | None =>
      QueryFailure "No speech detected"
        "I didn't catch that. Could you please repeat?"
  end.

End VoiceProcessor.

(* ===================================================================== *)
(** ** api/appointment_api.py                                             *)
(* ===================================================================== *)

Module AppointmentApi.
Import Time Model AppointmentService.

(** The handler of [PUT /api/appointments/<appointment_id>], as the HTTP
    status code it answers with and the store it leaves.  [data] is the
    JSON object of the request ([None] for a body that is null);
    [fromisoformat] is [datetime.fromisoformat]; [now_s] and [now_r] are
    the clock reads of the status update and of the reschedule.  A value
    that is not a string under the key scheduled_date makes
    [fromisoformat] raise [TypeError], which only the outer handler
    catches (500); a string it cannot read raises [ValueError] (400). *)
Definition update_appointment (fromisoformat : string → option Z)
    (now_s now_r : Z) (appointment_id : string)
    (data : option (gmap string pyvalue))
    (store : gmap string Appointment) : Z * gmap string Appointment :=
  match data with
  | None => (400, store)
  | Some data =>
      if bool_decide (data = ∅) then (400, store)
      else
        (* Handle status updates *)
        let after_status : option Z * gmap string Appointment :=
          match data !! "status" with
          | Some v =>
              match as_str v ≫= status_of_value with
              | Some new_status =>
                  let '(success, store1) :=
                    update_appointment_status now_s appointment_id
                      new_status store in
                  if success then (None, store1) else (Some 404, store1)
              | None => (Some 400, store)
              end
          | None => (None, store)
          end in
        match after_status with
        | (Some code, store1) => (code, store1)
        | (None, store1) =>
            (* Handle rescheduling *)
            let after_date : option Z * gmap string Appointment :=
              match data !! "scheduled_date" with
              | Some (PyStr d) =>
                  match fromisoformat d with
                  | Some new_date =>
                      let '(success, store2) :=
                        reschedule_appointment now_r appointment_id
                          new_date store1 in
                      if success then (None, store2) else (Some 409, store2)
                  | None => (Some 400, store1)
                  end
              | Some _ => (Some 500, store1)
              | None => (None, store1)
              end in
            match after_date with
            | (Some code, store2) => (code, store2)
            | (None, store2) =>
                (* Get updated appointment *)
                match get_appointment appointment_id store2 with
                | Some appointment => (200, store2)
                | None => (500, store2)
                end
            end
        end
  end.

End AppointmentApi.

(* ===================================================================== *)
(** ** Notions used to state the scheduling properties                    *)
(* ===================================================================== *)

Module SchedulingSpec.
Import Time Model AppointmentService.

(** Overlap of [s1, s1 + d1) and [s2, s2 + d2), by end points. *)
Definition intervals_overlap (s1 d1 s2 d2 : Z) : Prop :=
  s1 < s2 + minutes d2 ∧ s2 < s1 + minutes d1.

(** A dentist is assigned: the id is present and not the empty string
    (the values that Python treats as true). *)
Definition has_dentist (d : option string) : Prop :=
  ∃ s, d = Some s ∧ s ≠ "".

(** Status is neither cancelled nor no_show. *)
Definition active (a : Appointment) : Prop :=
  status a ≠ CANCELLED ∧ status a ≠ NO_SHOW.

(** The two appointments share a dentist id, or one of them has none. *)
Definition same_calendar (a b : Appointment) : Prop :=
  dentist_id a = dentist_id b ∨ dentist_id a = None ∨ dentist_id b = None.

(** No two distinct stored active appointments on the same calendar
    overlap. *)
Definition conflict_free (store : gmap string Appointment) : Prop :=
  ∀ k1 k2 a b,
    k1 ≠ k2 → store !! k1 = Some a → store !! k2 = Some b →
    active a → active b → same_calendar a b →
    is_conflict_with a b = false.

(** Sequential calls of the two operations that place an appointment. *)
Inductive call :=
| Create (now_c now_u : Z) (pid : string) (ty : AppointmentType)
    (sd dur : Z) (did : option string) (nts : string)
| Reschedule (now : Z) (aid : string) (new_date : Z).

Definition step (store : gmap string Appointment) (c : call)
  : gmap string Appointment :=
  match c with
  | Create now_c now_u pid ty sd dur did nts =>
      (create_appointment now_c now_u pid ty sd dur did nts store).2
  | Reschedule now aid new_date =>
      (reschedule_appointment now aid new_date store).2
  end.

Definition run (calls : list call) (store : gmap string Appointment)
  : gmap string Appointment :=
  fold_left step calls store.

(** The line that [cancel_appointment] appends to the notes. *)
Definition cancel_line (reason : string) : string :=
  if decide (reason = "") then String "010" "Cancelled"
  else String "010" "Cancelled: " ++ reason.

(** The key of every entry is the id of its appointment. *)
Definition well_keyed (store : gmap string Appointment) : Prop :=
  ∀ k a, store !! k = Some a → appointment_id a = k.

(** The keys are exactly the first [size store] generated ids. *)
Definition sequential (store : gmap string Appointment) : Prop :=
  ∀ k, is_Some (store !! k) ↔
       ∃ i : N, (1 <= i <= N.of_nat (size store))%N ∧ k = "A" ++ zfill4 i.

(** Every call of the service that changes the store. *)
Inductive service_call :=
| SCreate (now_c now_u : Z) (pid : string) (ty : AppointmentType)
    (sd dur : Z) (did : option string) (nts : string)
| SReschedule (now : Z) (aid : string) (new_date : Z)
| SCancel (now_check now_u : Z) (aid reason : string)
| SUpdateStatus (now : Z) (aid : string) (new_status : AppointmentStatus)
| SAddTreatmentNote (now_t now_u : Z) (aid note dentist : string).

Definition service_step (isoformat : Z → string)
    (store : gmap string Appointment) (c : service_call)
  : gmap string Appointment :=
  match c with
  | SCreate now_c now_u pid ty sd dur did nts =>
      (create_appointment now_c now_u pid ty sd dur did nts store).2
  | SReschedule now aid new_date =>
      (reschedule_appointment now aid new_date store).2
  | SCancel now_check now_u aid reason =>
      (cancel_appointment now_check now_u aid reason store).2
  | SUpdateStatus now aid new_status =>
      (update_appointment_status now aid new_status store).2
  | SAddTreatmentNote now_t now_u aid note dentist =>
      (AppointmentService.add_treatment_note isoformat now_t now_u aid note
         dentist store).2
  end.

Definition service_run (isoformat : Z → string) (calls : list service_call)
    (store : gmap string Appointment) : gmap string Appointment :=
  fold_left (service_step isoformat) calls store.

(** A status update that cannot bring an appointment back onto the
    calendar: the id is missing, the appointment is already active, or
    the new status is cancelled or no_show. *)
Definition keeps_calendar (store : gmap string Appointment)
    (c : service_call) : Prop :=
  match c with
  | SUpdateStatus _ aid new_status =>
      match store !! aid with
      | Some a => active a ∨ new_status = CANCELLED ∨ new_status = NO_SHOW
      | None => True
      end
  | _ => True
  end.

(** Every call of the sequence keeps the calendar, at the store it is
    applied to. *)
Fixpoint all_keep_calendar (isoformat : Z → string)
    (calls : list service_call) (store : gmap string Appointment) : Prop :=
  match calls with
  | [] => True
  | c :: rest =>
      keeps_calendar store c
      ∧ all_keep_calendar isoformat rest (service_step isoformat store c)
  end.

(** The dates of the appointment are read back as they were printed. *)
Definition dates_read_back (isoformat : Z → string)
    (fromisoformat : string → option Z) (a : Appointment) : Prop :=
  fromisoformat (isoformat (scheduled_date a)) = Some (scheduled_date a)
  ∧ fromisoformat (isoformat (created_at a)) = Some (created_at a)
  ∧ fromisoformat (isoformat (updated_at a)) = Some (updated_at a).

End SchedulingSpec.

(* ===================================================================== *)
(** ** Notions used to state the intent properties                        *)
(* ===================================================================== *)

Module IntentSpec.
Import VoiceProcessor.

(** Some pattern of the list matches somewhere in the text. *)
Definition matches (patterns : list regex) (t : list ascii) : Prop :=
  ∃ p, p ∈ patterns ∧ is_Some (re_search p t).

(** The normalised text: lower case, trimmed. *)
Definition normalise (text : string) : list ascii :=
  strip (lower (list_ascii_of_string text)).

(** [g] occurs in [t] as a contiguous part. *)
Definition substring (g t : list ascii) : Prop :=
  ∃ pre post, t = (pre ++ g ++ post)%list.

(** The six intents of the table and the fallback. *)
Definition known_intents : list string :=
  ["schedule_appointment"; "check_availability"; "insurance_inquiry";
   "service_inquiry"; "office_hours"; "emergency"; "general_inquiry"].

End IntentSpec.

(* ===================================================================== *)
(** ** Properties of the scheduling engine                                *)
(* ===================================================================== *)

Module Scheduling.
Import Time Model AppointmentService SchedulingSpec.

Ltac cmp :=
  repeat match goal with
    | |- context [?x >? ?y] => rewrite (Z.gtb_ltb x y)
    | H : context [?x >? ?y] |- _ => rewrite (Z.gtb_ltb x y) in H
    end;
  repeat match goal with
    | |- context [?x <? ?y] => destruct (Z.ltb_spec x y)
    | H : context [?x <? ?y] |- _ => destruct (Z.ltb_spec x y)
    end.

Lemma is_inactive_false (a : Appointment) :
  is_inactive a = false ↔ active a.
Proof.
  unfold is_inactive, active.
  rewrite bool_decide_eq_false, !elem_of_cons, elem_of_nil. tauto.
Qed.

Lemma truthy_has_dentist (d : option string) :
  truthy d = true ↔ has_dentist d.
Proof.
  unfold truthy, has_dentist. destruct d as [s|].
  - rewrite negb_true_iff. split.
    + intros H. exists s. split; [done|]. intros ->. done.
    + intros (s' & [= <-] & Hne). apply String.eqb_neq. done.
  - split; [done|]. intros (s & ? & _). done.
Qed.

Lemma other_dentist_true (did : option string) (a : Appointment) :
  other_dentist did a = true ↔
  has_dentist did ∧ has_dentist (dentist_id a) ∧ dentist_id a ≠ did.
Proof.
  unfold other_dentist.
  rewrite !andb_true_iff, bool_decide_eq_true, !truthy_has_dentist. tauto.
Qed.

Lemma same_calendar_other_dentist (did : option string) (a : Appointment) :
  did = dentist_id a ∨ did = None ∨ dentist_id a = None →
  other_dentist did a = false.
Proof.
  intros H. apply not_true_is_false. rewrite other_dentist_true.
  intros ((s & Hs & _) & (s' & Hs' & _) & Hne).
  destruct H as [H | [H | H]]; congruence.
Qed.

Lemma overlaps_overlap (sd dur : Z) (a : Appointment) :
  overlaps sd (sd + minutes dur) a = true ↔
  intervals_overlap sd dur (scheduled_date a) (duration_minutes a).
Proof.
  unfold overlaps, intervals_overlap, get_end_time.
  rewrite andb_true_iff, Z.ltb_lt, Z.gtb_ltb, Z.ltb_lt. tauto.
Qed.

Lemma is_conflict_with_overlaps (a b : Appointment) :
  is_conflict_with a b
  = overlaps (scheduled_date a) (scheduled_date a + minutes (duration_minutes a)) b.
Proof.
  unfold is_conflict_with, overlaps, get_end_time.
  by destruct (_ && _).
Qed.

Lemma is_conflict_with_sym (a b : Appointment) :
  is_conflict_with a b = is_conflict_with b a.
Proof.
  unfold is_conflict_with, get_end_time. cmp; simpl; try done; lia.
Qed.

(** For proper (positive) durations the end-point test is the usual
    meaning of overlap: the two half-open intervals share an instant. *)
Lemma intervals_overlap_common_instant (s1 d1 s2 d2 : Z) :
  0 < d1 → 0 < d2 →
  intervals_overlap s1 d1 s2 d2 ↔
  ∃ t, (s1 <= t < s1 + minutes d1) ∧ (s2 <= t < s2 + minutes d2).
Proof.
  unfold intervals_overlap, minutes, us_per_minute. intros H1 H2. split.
  - intros [Ha Hb]. exists (Z.max s1 s2). lia.
  - intros (t & Ht1 & Ht2). lia.
Qed.

Lemma values_spec (store : gmap string Appointment) (a : Appointment) :
  In a (map_to_list store).*2 ↔ ∃ k, store !! k = Some a.
Proof.
  rewrite <- list_elem_of_In, list_elem_of_fmap. split.
  - intros ([k a'] & -> & Hin). exists k. by apply elem_of_map_to_list.
  - intros (k & Hk). exists (k, a). split; [done|].
    by apply elem_of_map_to_list.
Qed.

Lemma has_conflict_true (sd dur : Z) (did : option string)
    (store : gmap string Appointment) :
  has_conflict sd dur did store = true ↔
  ∃ k a, store !! k = Some a ∧ blocks sd dur did a = true.
Proof.
  unfold has_conflict. rewrite existsb_exists. split.
  - intros (a & Hin & Hb). apply values_spec in Hin as (k & Hk). eauto.
  - intros (k & a & Hk & Hb). exists a. split; [|done].
    apply values_spec. eauto.
Qed.

Lemma has_conflict_false (sd dur : Z) (did : option string)
    (store : gmap string Appointment) :
  has_conflict sd dur did store = false ↔
  ∀ k a, store !! k = Some a → blocks sd dur did a = false.
Proof.
  rewrite <- not_true_iff_false, has_conflict_true. split.
  - intros H k a Hk. apply not_true_iff_false. intros Hb. apply H. eauto.
  - intros H (k & a & Hk & Hb). rewrite (H k a Hk) in Hb. done.
Qed.

Lemma blocks_true (sd dur : Z) (did : option string) (a : Appointment) :
  blocks sd dur did a = true ↔
  active a ∧ conflict_rule sd dur did a = true.
Proof.
  unfold blocks. rewrite <- is_inactive_false.
  destruct (is_inactive a); intuition congruence.
Qed.

Lemma conflict_rule_true (sd dur : Z) (did : option string) (a : Appointment) :
  conflict_rule sd dur did a = true ↔
  intervals_overlap sd dur (scheduled_date a) (duration_minutes a)
  ∧ ¬ (has_dentist did ∧ has_dentist (dentist_id a) ∧ dentist_id a ≠ did).
Proof.
  unfold conflict_rule. rewrite <- other_dentist_true, <- overlaps_overlap.
  destruct (other_dentist did a); intuition congruence.
Qed.

(** An accepted request overlaps no active appointment of its calendar. *)
Lemma accepted_no_overlap (sd dur : Z) (did : option string)
    (store : gmap string Appointment) (k : string) (b : Appointment) :
  has_conflict sd dur did store = false →
  store !! k = Some b → active b →
  did = dentist_id b ∨ did = None ∨ dentist_id b = None →
  overlaps sd (sd + minutes dur) b = false.
Proof.
  intros Hc Hk Hact Hcal.
  pose proof (proj1 (has_conflict_false _ _ _ _) Hc k b Hk) as Hb.
  unfold blocks, conflict_rule in Hb.
  rewrite (proj2 (is_inactive_false b) Hact) in Hb.
  by rewrite (same_calendar_other_dentist did b Hcal) in Hb.
Qed.

(** Placing at key [k] an appointment that was accepted by the scan keeps
    the store conflict free. *)
Lemma conflict_free_insert (store : gmap string Appointment) (k : string)
    (a : Appointment) :
  conflict_free store →
  has_conflict (scheduled_date a) (duration_minutes a) (dentist_id a) store
    = false →
  conflict_free (<[k := a]> store).
Proof.
  intros Hfree Hc k1 k2 x y Hne H1 H2 Hx Hy Hcal.
  destruct (decide (k1 = k)) as [->|Hk1];
    destruct (decide (k2 = k)) as [->|Hk2]; [done| | |].
  - rewrite lookup_insert_eq in H1. rewrite lookup_insert_ne in H2 by done.
    injection H1 as <-. rewrite is_conflict_with_overlaps.
    apply (accepted_no_overlap _ _ _ store k2 y Hc H2 Hy Hcal).
  - rewrite lookup_insert_eq in H2. rewrite lookup_insert_ne in H1 by done.
    injection H2 as <-.
    rewrite is_conflict_with_sym, is_conflict_with_overlaps.
    apply (accepted_no_overlap _ _ _ store k1 x Hc H1 Hx).
    destruct Hcal as [?|[?|?]]; auto.
  - rewrite lookup_insert_ne in H1, H2 by done.
    exact (Hfree k1 k2 x y Hne H1 H2 Hx Hy Hcal).
Qed.

Lemma step_conflict_free (store : gmap string Appointment) (c : call) :
  conflict_free store → conflict_free (step store c).
Proof.
  intros Hfree. destruct c as [now_c now_u pid ty sd dur did nts | now aid nd];
    simpl.
  - unfold create_appointment.
    destruct (has_conflict sd dur did store) eqn:Hc; simpl; [done|].
    by apply conflict_free_insert.
  - unfold reschedule_appointment, get_appointment.
    destruct (store !! aid) as [a|] eqn:Ha; simpl; [|done].
    destruct (has_conflict nd (duration_minutes a) (dentist_id a) store)
      eqn:Hc; simpl; [done|].
    by apply conflict_free_insert.
Qed.

Lemma no_conflict_no_common_instant (a b : Appointment) :
  is_conflict_with a b = false →
  ¬ ∃ t, (scheduled_date a <= t < get_end_time a)
         ∧ (scheduled_date b <= t < get_end_time b).
Proof.
  unfold is_conflict_with. intros H (t & Ha & Hb). cmp; simpl in *; [done|..].
  all: lia.
Qed.

Lemma run_conflict_free (calls : list call)
    (store : gmap string Appointment) :
  conflict_free store → conflict_free (run calls store).
Proof.
  unfold run. revert store.
  induction calls as [|c calls IH]; intros store Hfree; simpl; [done|].
  apply IH. by apply step_conflict_free.
Qed.

(** C1. Starting from a conflict-free store, after any sequence of
    sequential [create_appointment] and [reschedule_appointment] calls no
    two distinct stored appointments that are active (status neither
    cancelled nor no_show) and that share a dentist id, or one of which
    has dentist id [None], overlap: [is_conflict_with] is false of them,
    and their intervals [start, start + duration) share no instant. *)
Theorem no_double_booking (store : gmap string Appointment)
    (calls : list call) :
  conflict_free store →
  conflict_free (run calls store)
  ∧ ∀ k1 k2 a b,
      k1 ≠ k2 →
      run calls store !! k1 = Some a → run calls store !! k2 = Some b →
      active a → active b → same_calendar a b →
      ¬ ∃ t, (scheduled_date a <= t < get_end_time a)
             ∧ (scheduled_date b <= t < get_end_time b).
Proof.
  intros Hfree. pose proof (run_conflict_free calls store Hfree) as Hrun.
  split; [done|]. intros k1 k2 a b Hne H1 H2 Ha Hb Hcal.
  apply no_conflict_no_common_instant.
  exact (Hrun k1 k2 a b Hne H1 H2 Ha Hb Hcal).
Qed.

Lemma has_conflict_active (sd dur : Z) (did : option string)
    (store : gmap string Appointment) :
  has_conflict sd dur did store = true ↔
  ∃ k b, store !! k = Some b ∧ active b
         ∧ conflict_rule sd dur did b = true.
Proof.
  rewrite has_conflict_true.
  split; intros (k & b & Hk & Hb); exists k, b.
  - apply blocks_true in Hb. tauto.
  - split; [tauto|]. apply blocks_true. tauto.
Qed.

(** C4. The conflict rule applied by the scan holds between a request
    [(sd, dur, did)] and an appointment iff their intervals overlap and
    it is not the case that both have a dentist assigned and the two ids
    differ; so a missing dentist id on either side never exempts an
    overlapping pair.  Overlap is the end-point test of the code; for
    positive durations it says that the two intervals share an instant.
    The scan of create / reschedule / slot generation reports a conflict
    iff the rule holds for some stored active appointment. *)
Theorem conflict_rule_iff (sd dur : Z) (did : option string)
    (a : Appointment) :
  (conflict_rule sd dur did a = true ↔
     intervals_overlap sd dur (scheduled_date a) (duration_minutes a)
     ∧ ¬ (has_dentist did ∧ has_dentist (dentist_id a)
          ∧ dentist_id a ≠ did))
  ∧ (¬ has_dentist did ∨ ¬ has_dentist (dentist_id a) →
     intervals_overlap sd dur (scheduled_date a) (duration_minutes a) →
     conflict_rule sd dur did a = true)
  ∧ (0 < dur → 0 < duration_minutes a →
     (conflict_rule sd dur did a = true ↔
        (∃ t, (sd <= t < sd + minutes dur)
              ∧ (scheduled_date a <= t < get_end_time a))
        ∧ ¬ (has_dentist did ∧ has_dentist (dentist_id a)
             ∧ dentist_id a ≠ did)))
  ∧ (∀ store : gmap string Appointment,
       has_conflict sd dur did store = true ↔
       ∃ k b, store !! k = Some b ∧ active b
              ∧ conflict_rule sd dur did b = true).
Proof.
  split; [apply conflict_rule_true|]. split; [|split].
  - intros Hno Hov. apply conflict_rule_true. split; [done|]. tauto.
  - intros Hd Hda. rewrite conflict_rule_true.
    by rewrite (intervals_overlap_common_instant _ _ _ _ Hd Hda).
  - intros store. apply has_conflict_active.
Qed.

(** C6. A [create_appointment] call whose request conflicts, under the
    conflict rule, with some stored active appointment returns [None]
    and leaves the store as it was; otherwise it stores, under the id
    ["A" ++ zfill4 (len + 1)], a new appointment with that id, the
    requested fields and status [SCHEDULED], and returns it. *)
Theorem create_appointment_spec (now_c now_u : Z) (pid : string)
    (ty : AppointmentType) (sd dur : Z) (did : option string)
    (nts : string) (store : gmap string Appointment) :
  let r := create_appointment now_c now_u pid ty sd dur did nts store in
  let conflicting :=
    ∃ k a, store !! k = Some a ∧ active a
           ∧ conflict_rule sd dur did a = true in
  (conflicting → r = (None, store))
  ∧ (¬ conflicting →
     ∃ new,
       r = (Some new, <[appointment_id new := new]> store)
       ∧ appointment_id new = "A" ++ zfill4 (N.of_nat (size store) + 1)
       ∧ status new = SCHEDULED
       ∧ new = init now_c now_u (appointment_id new) pid ty sd dur did nts
       ∧ r.2 !! appointment_id new = Some new
       ∧ (store !! appointment_id new = None →
          size r.2 = S (size store))).
Proof.
  intros r conflicting. subst r. unfold create_appointment.
  pose proof (has_conflict_active sd dur did store) as Hscan.
  fold conflicting in Hscan.
  destruct (has_conflict sd dur did store) eqn:Hc.
  - split; [done|]. intros Hn. destruct Hn. by apply Hscan.
  - split.
    + intros Hyes. apply Hscan in Hyes. done.
    + intros _.
      exists (init now_c now_u (next_id store) pid ty sd dur did nts).
      split; [reflexivity|]. simpl.
      split; [done|]. split; [done|]. split; [done|].
      split; [apply lookup_insert_eq|].
      intros Hfresh. by apply map_size_insert_None.
Qed.

Lemma cancel_line_eq (reason : string) :
  (if negb (String.eqb reason "")
   then String "010" "Cancelled: " ++ reason
   else String "010" "Cancelled") = cancel_line reason.
Proof.
  unfold cancel_line. destruct (String.eqb_spec reason "") as [->|Hne].
  - done.
  - simpl. by destruct (decide (reason = "")).
Qed.

Lemma can_be_cancelled_true (now : Z) (a : Appointment) :
  can_be_cancelled now a = true ↔ now < scheduled_date a - hours 24.
Proof.
  unfold can_be_cancelled. rewrite Z.gtb_ltb, Z.ltb_lt. lia.
Qed.

Lemma cancel_appointment_eq (now_check now_u : Z) (aid reason : string)
    (store : gmap string Appointment) (a : Appointment) :
  store !! aid = Some a →
  cancel_appointment now_check now_u aid reason store =
  if can_be_cancelled now_check a
  then (true,
        <[aid := set_notes (notes a ++ cancel_line reason)
                   (update_status now_u CANCELLED a)]> store)
  else (false, store).
Proof.
  intros Ha. unfold cancel_appointment, get_appointment. rewrite Ha.
  destruct (can_be_cancelled now_check a); [|done].
  by rewrite cancel_line_eq.
Qed.

(** C5. For a stored id, [cancel_appointment] returns true iff the clock
    is strictly more than 24 hours before the scheduled start; it then
    sets the status to cancelled and appends the cancellation line with
    the reason to the notes, and otherwise changes nothing.  A start 23
    hours ahead is rejected, 25 hours ahead is accepted; a missing id
    gives false. *)
Theorem cancel_appointment_guard (now_check now_u : Z) (aid reason : string)
    (store : gmap string Appointment) :
  let r := cancel_appointment now_check now_u aid reason store in
  (∀ a, store !! aid = Some a →
     (r.1 = true ↔ now_check < scheduled_date a - hours 24)
     ∧ (r.1 = true →
        ∃ a', r.2 = <[aid := a']> store
              ∧ status a' = CANCELLED
              ∧ notes a' = notes a ++ cancel_line reason)
     ∧ (r.1 = false → r.2 = store)
     ∧ (scheduled_date a = now_check + hours 23 → r = (false, store))
     ∧ (scheduled_date a = now_check + hours 25 → r.1 = true))
  ∧ (store !! aid = None → r = (false, store)).
Proof.
  intros r. subst r. split.
  - intros a Ha. rewrite (cancel_appointment_eq _ _ _ _ _ _ Ha).
    pose proof (can_be_cancelled_true now_check a) as Hg.
    destruct (can_be_cancelled now_check a); simpl.
    + split; [tauto|]. split; [eauto|]. split; [done|].
      unfold hours, us_per_hour in *. split; intros; [lia | done].
    + split; [split; [done|]; intros H; by apply Hg in H|].
      split; [done|]. split; [done|].
      unfold hours, us_per_hour in *. split; intros; [done | lia].
  - intros Hnone. unfold cancel_appointment, get_appointment.
    by rewrite Hnone.
Qed.

(** C10. [cancel_appointment] does not look at the status: whatever the
    status of a stored appointment that starts more than 24 hours after
    the clock, the call succeeds, and each successful call appends one
    more cancellation line, so that a second cancel of the (now
    cancelled) appointment succeeds again and the notes accumulate. *)
Theorem cancel_ignores_status (now1 now1' now2 now2' : Z)
    (aid r1 r2 : string) (store : gmap string Appointment)
    (a : Appointment) :
  store !! aid = Some a →
  now1 + hours 24 < scheduled_date a →
  now2 + hours 24 < scheduled_date a →
  let c1 := cancel_appointment now1 now1' aid r1 store in
  let c2 := cancel_appointment now2 now2' aid r2 c1.2 in
  c1.1 = true
  ∧ (∀ s, (cancel_appointment now1 now1' aid r1
             (<[aid := set_status s a]> store)).1 = true)
  ∧ (∃ a1, c1.2 !! aid = Some a1 ∧ status a1 = CANCELLED
           ∧ notes a1 = notes a ++ cancel_line r1)
  ∧ c2.1 = true
  ∧ (∃ a2, c2.2 !! aid = Some a2 ∧ status a2 = CANCELLED
           ∧ notes a2 = (notes a ++ cancel_line r1) ++ cancel_line r2).
Proof.
  intros Ha H1 H2 c1 c2. subst c2 c1.
  assert (Hg : ∀ now b, scheduled_date b = scheduled_date a →
            now + hours 24 < scheduled_date a →
            can_be_cancelled now b = true).
  { intros now b Hb Hlt. apply can_be_cancelled_true. lia. }
  rewrite (cancel_appointment_eq _ _ _ _ _ _ Ha), (Hg now1 a) by done.
  simpl. split; [done|]. split.
  { intros s.
    rewrite (cancel_appointment_eq _ _ _ _ _ (set_status s a))
      by apply lookup_insert_eq.
    by rewrite Hg. }
  split.
  { eexists. split; [apply lookup_insert_eq|]. done. }
  erewrite cancel_appointment_eq by apply lookup_insert_eq.
  rewrite Hg by done. simpl. split; [done|].
  eexists. split; [apply lookup_insert_eq|]. done.
Qed.

(** Amended C2. [reschedule_appointment] of a stored id scans every
    stored active appointment, the rescheduled one included, with the new
    start and the appointment's own duration and dentist; it succeeds
    (new start and [updated_at] written, nothing else changed) iff none
    conflicts, and otherwise returns false and changes nothing.  So an
    active appointment moved to a time that overlaps its own current
    interval is rejected.  A missing id gives false. *)
Theorem reschedule_appointment_spec (now : Z) (aid : string) (new_date : Z)
    (store : gmap string Appointment) :
  let r := reschedule_appointment now aid new_date store in
  (∀ a, store !! aid = Some a →
     let conflicting :=
       ∃ k b, store !! k = Some b ∧ active b
              ∧ conflict_rule new_date (duration_minutes a) (dentist_id a) b
                = true in
     (r.1 = true ↔ ¬ conflicting)
     ∧ (¬ conflicting →
        r = (true,
             <[aid := set_updated_at now (set_scheduled_date new_date a)]>
               store))
     ∧ (conflicting → r = (false, store))
     ∧ (active a →
        intervals_overlap new_date (duration_minutes a)
          (scheduled_date a) (duration_minutes a) →
        r = (false, store)))
  ∧ (store !! aid = None → r = (false, store)).
Proof.
  intros r. split.
  - intros a Ha conflicting. subst r.
    unfold reschedule_appointment, get_appointment. rewrite Ha.
    pose proof (has_conflict_active new_date (duration_minutes a)
                  (dentist_id a) store) as Hscan.
    fold conflicting in Hscan.
    assert (Hself : active a →
              intervals_overlap new_date (duration_minutes a)
                (scheduled_date a) (duration_minutes a) → conflicting).
    { intros Hact Hov. exists aid, a. split; [done|]. split; [done|].
      apply conflict_rule_true. split; [done|]. intros (_ & _ & Hne).
      done. }
    destruct (has_conflict new_date (duration_minutes a) (dentist_id a)
                store) eqn:Hc; simpl.
    + assert conflicting by (by apply Hscan).
      split; [split; [done|tauto]|]. split; [tauto|]. done.
    + assert (¬ conflicting) by (intros Hy; apply Hscan in Hy; done).
      split; [tauto|]. split; [done|]. split; [tauto|]. tauto.
  - intros Hnone. subst r.
    unfold reschedule_appointment, get_appointment. by rewrite Hnone.
Qed.

Lemma has_conflict_empty (sd dur : Z) (did : option string) :
  has_conflict sd dur did ∅ = false.
Proof. unfold has_conflict. by rewrite map_to_list_empty. Qed.

(** One turn of the [while] loop of [get_available_slots]. *)
Lemma slots_loop_step (dur : Z) (did : option string)
    (store : gmap string Appointment) (e c : Z) :
  slots_loop dur did store e c =
  if bool_decide (c + minutes dur <= e) then
    if negb (has_conflict c dur did store)
    then c :: slots_loop dur did store e (c + minutes 30)
    else slots_loop dur did store e (c + minutes 30)
  else [].
Proof.
  rewrite slots_loop_equation_1.
  destruct (decide (c + minutes dur <= e)) as [H|H]; simpl.
  - by rewrite bool_decide_true.
  - by rewrite bool_decide_false.
Qed.

(** Amended C3. On an empty store, [get_available_slots date 60] returns,
    for every date and dentist argument, exactly the 15 slots 09:00,
    09:30, ..., 16:00 of that day, in chronological order, each ending no
    later than 17:00. *)
Theorem get_available_slots_empty (date : Z) (did : option string) :
  let slots := get_available_slots date 60 did ∅ in
  slots = (λ i, at_hour date 9 + minutes (30 * i)) <$> seqZ 0 15
  ∧ length slots = 15%nat
  ∧ head slots = Some (at_hour date 9)
  ∧ last slots = Some (at_hour date 16)
  ∧ Forall (λ s, s + minutes 60 <= at_hour date 17) slots
  ∧ StronglySorted Z.lt slots.
Proof.
  intros slots.
  assert (Heq : slots
                = (λ i, at_hour date 9 + minutes (30 * i)) <$> seqZ 0 15).
  { subst slots. unfold get_available_slots, at_hour.
    generalize (midnight date). intros m.
    unfold hours, minutes, us_per_hour, us_per_minute.
    do 16 (rewrite slots_loop_step, has_conflict_empty;
           unfold minutes, us_per_minute; simpl negb; cbv iota;
           first [ rewrite bool_decide_true by lia
                 | rewrite bool_decide_false by lia ]).
    vm_compute seqZ. simpl fmap.
    repeat (f_equal; try lia). }
  rewrite Heq. unfold at_hour. generalize (midnight date). intros m.
  unfold hours, minutes, us_per_hour, us_per_minute.
  vm_compute seqZ. simpl.
  split; [done|]. split; [done|]. split; [f_equal; lia|].
  split; [f_equal; lia|].
  split.
  - repeat (apply Forall_cons; split; [lia|]). apply Forall_nil. done.
  - repeat (apply SSorted_cons;
            [|repeat (apply Forall_cons; split; [lia|]);
              by apply Forall_nil]).
    apply SSorted_nil.
Qed.

(** *** Concrete instances *)

(** An empty store, then: a 10:00 cleaning without dentist, a request
    for 10:30 that is refused, an 11:00 filling, and an attempt to move
    the latter onto the former. *)
Lemma no_double_booking_witness :
  conflict_free ∅
  ∧ conflict_free
      (run [ Create 0 0 "P1" CLEANING (hours 10) 60 None "";
             Create 0 0 "P2" FILLING (hours 10 + minutes 30) 60
               (Some "D1") "";
             Create 0 0 "P3" FILLING (hours 11) 60 (Some "D1") "";
             Reschedule 1 "A0002" (hours 10 + minutes 30) ] ∅).
Proof.
  assert (H0 : conflict_free ∅).
  { intros k1 k2 a b _ H. by rewrite lookup_empty in H. }
  split; [exact H0|]. apply (proj1 (no_double_booking ∅ _ H0)).
Defined.

(** The only stored appointment, 10:00-11:00 and active, cannot be moved
    to 10:30, a time that overlaps nothing but its own interval. *)
Lemma reschedule_self_overlap_rejected :
  let a := init 0 0 "A0001" "P0001" CLEANING (hours 10) 60 None "" in
  let store : gmap string Appointment := {[ "A0001" := a ]} in
  size store = 1%nat
  ∧ store !! "A0001" = Some a
  ∧ intervals_overlap (hours 10 + minutes 30) (duration_minutes a)
      (scheduled_date a) (duration_minutes a)
  ∧ reschedule_appointment 1 "A0001" (hours 10 + minutes 30) store
    = (false, store).
Proof.
  intros a store. split; [by vm_compute|]. split; [by vm_compute|].
  split; [by vm_compute|]. by vm_compute.
Qed.

Lemma reschedule_appointment_spec_witness :
  let a := init 0 0 "A0001" "P0001" CLEANING (hours 10) 60 (Some "D1") "" in
  let store : gmap string Appointment := {[ "A0001" := a ]} in
  reschedule_appointment 1 "A0001" (hours 10 + minutes 30) store
  = (false, store).
Proof.
  intros a store.
  refine (proj2 (proj2 (proj2
    (proj1 (reschedule_appointment_spec 1 "A0001" (hours 10 + minutes 30)
              store) a _))) _ _).
  - by vm_compute.
  - split; intros [=].
  - by vm_compute.
Defined.

(** An empty day has 15 slots, not 16. *)
Lemma get_available_slots_empty_not_16 :
  length (get_available_slots 0 60 None ∅) = 15%nat
  ∧ length (get_available_slots 0 60 None ∅) ≠ 16%nat.
Proof. split; [by vm_compute|]. vm_compute. intros [=]. Qed.

(** A request without dentist conflicts with an overlapping appointment
    of dentist D1, and so does a request for D1 with an appointment that
    has none; a request for D2 does not. *)
Lemma conflict_rule_iff_witness :
  let a := init 0 0 "A0001" "P0001" CLEANING (hours 10) 60 (Some "D1") "" in
  let b := init 0 0 "A0002" "P0002" CLEANING (hours 10) 60 None "" in
  conflict_rule (hours 10 + minutes 30) 30 None a = true
  ∧ conflict_rule (hours 10 + minutes 30) 30 (Some "D1") b = true
  ∧ conflict_rule (hours 10 + minutes 30) 30 (Some "D2") a = false.
Proof.
  intros a b. split; [|split].
  - refine (proj1 (proj2 (conflict_rule_iff _ _ _ a)) _ _).
    + left. intros (s & [=] & _).
    + by vm_compute.
  - refine (proj1 (proj2 (conflict_rule_iff _ _ _ b)) _ _).
    + right. intros (s & [=] & _).
    + by vm_compute.
  - by vm_compute.
Defined.

(** 25 hours ahead: accepted. *)
Lemma cancel_appointment_guard_witness :
  let a := init 0 0 "A0001" "P0001" CLEANING (hours 25) 60 None "" in
  (cancel_appointment 0 0 "A0001" "sick" {[ "A0001" := a ]}).1 = true.
Proof.
  intros a.
  refine (proj2 (proj1
    (proj1 (cancel_appointment_guard 0 0 "A0001" "sick" {[ "A0001" := a ]})
       a _)) _).
  - by vm_compute.
  - by vm_compute.
Defined.

(** A request that overlaps a stored active appointment is refused. *)
Lemma create_appointment_spec_witness :
  let a := init 0 0 "A0001" "P0001" CLEANING (hours 10) 60 None "" in
  let store : gmap string Appointment := {[ "A0001" := a ]} in
  create_appointment 5 5 "P0002" FILLING (hours 10 + minutes 30) 60
    (Some "D1") "" store = (None, store).
Proof.
  intros a store.
  refine (proj1 (create_appointment_spec 5 5 "P0002" FILLING
                   (hours 10 + minutes 30) 60 (Some "D1") "" store) _).
  exists "A0001", a. split; [by vm_compute|].
  split; [split; intros [=]|]. by vm_compute.
Defined.

(** A completed appointment two days ahead is cancelled, twice. *)
Lemma cancel_ignores_status_witness :
  let a :=
    set_status COMPLETED
      (init 0 0 "A0001" "P0001" CLEANING (hours 48) 60 None "first") in
  let store : gmap string Appointment := {[ "A0001" := a ]} in
  let c1 := cancel_appointment 0 1 "A0001" "sick" store in
  let c2 := cancel_appointment 2 3 "A0001" "" c1.2 in
  c1.1 = true ∧ c2.1 = true
  ∧ notes <$> (c2.2 !! "A0001")
    = Some ("first" ++ String "010" "Cancelled: sick"
              ++ String "010" "Cancelled").
Proof.
  intros a store c1 c2.
  assert (Ha : store !! "A0001" = Some a) by (by vm_compute).
  assert (H1 : 0 + hours 24 < scheduled_date a) by (by vm_compute).
  assert (H2 : 2 + hours 24 < scheduled_date a) by (by vm_compute).
  destruct (cancel_ignores_status 0 1 2 3 "A0001" "sick" "" store a
              Ha H1 H2) as (Hc1 & _ & _ & Hc2 & _).
  split; [exact Hc1|]. split; [exact Hc2|]. by vm_compute.
Defined.

End Scheduling.

(* ===================================================================== *)
(** ** Persistence round trip                                             *)
(* ===================================================================== *)

Module Persistence.
Import Model AppointmentService.

Section RoundTrip.
Variable isoformat : Z → string.
Variable fromisoformat : string → option Z.
Variable a : Appointment.

Lemma type_of_value_type_value (t : AppointmentType) :
  type_of_value (type_value t) = Some t.
Proof. by destruct t. Qed.

Lemma status_of_value_status_value (s : AppointmentStatus) :
  status_of_value (status_value s) = Some s.
Proof. by destruct s. Qed.

Lemma to_dict_appointment_id :
  to_dict isoformat a !! "appointment_id" = Some (PyStr (appointment_id a)).
Proof. by vm_compute. Qed.
Lemma to_dict_patient_id :
  to_dict isoformat a !! "patient_id" = Some (PyStr (patient_id a)).
Proof. by vm_compute. Qed.
Lemma to_dict_appointment_type :
  to_dict isoformat a !! "appointment_type"
  = Some (PyStr (type_value (appointment_type a))).
Proof. by vm_compute. Qed.
Lemma to_dict_scheduled_date :
  to_dict isoformat a !! "scheduled_date"
  = Some (PyStr (isoformat (scheduled_date a))).
Proof. by vm_compute. Qed.
Lemma to_dict_duration_minutes :
  to_dict isoformat a !! "duration_minutes"
  = Some (PyInt (duration_minutes a)).
Proof. by vm_compute. Qed.
Lemma to_dict_dentist_id :
  to_dict isoformat a !! "dentist_id"
  = Some (match dentist_id a with Some d => PyStr d | None => PyNone end).
Proof. by vm_compute. Qed.
Lemma to_dict_notes :
  to_dict isoformat a !! "notes" = Some (PyStr (notes a)).
Proof. by vm_compute. Qed.
Lemma to_dict_status :
  to_dict isoformat a !! "status" = Some (PyStr (status_value (status a))).
Proof. by vm_compute. Qed.
Lemma to_dict_created_at :
  to_dict isoformat a !! "created_at"
  = Some (PyStr (isoformat (created_at a))).
Proof. by vm_compute. Qed.
Lemma to_dict_updated_at :
  to_dict isoformat a !! "updated_at"
  = Some (PyStr (isoformat (updated_at a))).
Proof. by vm_compute. Qed.
Lemma to_dict_reminders_sent :
  to_dict isoformat a !! "reminders_sent"
  = Some (PyReminders (reminders_sent a)).
Proof. by vm_compute. Qed.
Lemma to_dict_treatment_notes :
  to_dict isoformat a !! "treatment_notes"
  = Some (PyTreatmentNotes (treatment_notes a)).
Proof. by vm_compute. Qed.

(** C9. Rebuilding an appointment from the dictionary that [to_dict]
    made of it gives back the same appointment: id, patient id, type,
    scheduled date, duration, dentist id, notes, status, both time
    stamps and both lists.  The library's [fromisoformat] is assumed to
    read back the three dates that its [isoformat] printed. *)
Theorem to_dict_from_dict_roundtrip (now_c now_u : Z) :
  fromisoformat (isoformat (scheduled_date a)) = Some (scheduled_date a) →
  fromisoformat (isoformat (created_at a)) = Some (created_at a) →
  fromisoformat (isoformat (updated_at a)) = Some (updated_at a) →
  create_appointment_from_dict fromisoformat now_c now_u
    (to_dict isoformat a) = Some a.
Proof.
  intros Hsd Hca Hua. unfold create_appointment_from_dict.
  rewrite to_dict_appointment_id, to_dict_patient_id,
    to_dict_appointment_type, to_dict_scheduled_date,
    to_dict_duration_minutes, to_dict_dentist_id, to_dict_notes,
    to_dict_status, to_dict_created_at, to_dict_updated_at,
    to_dict_reminders_sent, to_dict_treatment_notes.
  simpl. rewrite type_of_value_type_value, Hsd. simpl.
  destruct a as [aid pid ty sd dur did nts st ca ua rs tn]; simpl in *.
  destruct did; simpl;
    rewrite status_of_value_status_value; simpl; rewrite Hca; simpl;
    rewrite Hua; done.
Qed.

End RoundTrip.

(** A stand-in pair of printing and reading functions, to run the round
    trip on a concrete appointment. *)
Lemma to_dict_from_dict_roundtrip_witness :
  let iso := λ z : Z, NilZero.string_of_int (Z.to_int z) in
  let fromiso := λ s : string, Z.of_int <$> NilZero.int_of_string s in
  let a :=
    set_treatment_notes
      [ {| t_note := "x-ray"; t_dentist_id := "D1";
           t_timestamp := "63000000" |} ]
      (set_status CONFIRMED
         (Model.init 17 18 "A0001" "P0001" ROOT_CANAL 36000000000 45
            (Some "D1") "bring card")) in
  create_appointment_from_dict fromiso 99 99 (to_dict iso a) = Some a.
Proof.
  intros iso fromiso a.
  apply (to_dict_from_dict_roundtrip iso fromiso a 99 99);
    by vm_compute.
Defined.

End Persistence.

(* ===================================================================== *)
(** ** Properties of intent resolution                                    *)
(* ===================================================================== *)

Module Intent.
Import VoiceProcessor IntentSpec.
Local Open Scope nat_scope.
Local Open Scope list_scope.

Lemma any_pattern_true (ps : list regex) (t : list ascii) :
  any_pattern ps t = true ↔ matches ps t.
Proof.
  unfold matches. induction ps as [|p ps IH]; simpl.
  - split; [done|]. intros (p & Hp & _). by apply elem_of_nil in Hp.
  - destruct (re_search p t) as [g|] eqn:Hg.
    + split; [|done]. intros _. exists p. split; [left|]. by rewrite Hg.
    + rewrite IH. split.
      * intros (q & Hq & Hs). exists q. split; [by right|done].
      * intros (q & Hq & Hs). apply elem_of_cons in Hq as [->|Hq].
        -- rewrite Hg in Hs. by destruct Hs.
        -- eauto.
Qed.

Lemma any_pattern_false (ps : list regex) (t : list ascii) :
  any_pattern ps t = false ↔ ¬ matches ps t.
Proof. rewrite <- any_pattern_true. by destruct (any_pattern ps t). Qed.

(** The scan returns the first entry of the table that matches. *)
Lemma scan_intents_first (table : list (string * list regex))
    (t : list ascii) (n : nat) (intent : string) (ps : list regex) :
  table !! n = Some (intent, ps) →
  matches ps t →
  (∀ m e, m < n → table !! m = Some e → ¬ matches e.2 t) →
  scan_intents table t = Some (intent, extract_entities t intent).
Proof.
  revert n. induction table as [|[i qs] table IH]; intros n Hn Hm Hbefore.
  - done.
  - simpl. destruct n as [|n]; simpl in Hn.
    + injection Hn as -> ->.
      by rewrite (proj2 (any_pattern_true ps t) Hm).
    + rewrite (proj2 (any_pattern_false qs t)).
      * apply (IH n Hn Hm). intros m e Hlt He.
        apply (Hbefore (S m) e); [lia|done].
      * apply (Hbefore 0 (i, qs)); [lia|done].
Qed.

Lemma scan_intents_none (table : list (string * list regex))
    (t : list ascii) :
  (∀ e, e ∈ table → ¬ matches e.2 t) → scan_intents table t = None.
Proof.
  induction table as [|[i qs] table IH]; intros Hno; simpl; [done|].
  rewrite (proj2 (any_pattern_false qs t)).
  - apply IH. intros e He. apply Hno. by right.
  - apply (Hno (i, qs)). left.
Qed.

(** Some entry is the first one that matches, as soon as one matches. *)
Lemma first_matching_entry (table : list (string * list regex))
    (t : list ascii) (n : nat) (e : string * list regex) :
  table !! n = Some e → matches e.2 t →
  ∃ n0 e0, n0 ≤ n ∧ table !! n0 = Some e0 ∧ matches e0.2 t
           ∧ ∀ m e', m < n0 → table !! m = Some e' → ¬ matches e'.2 t.
Proof.
  revert n. induction table as [|[i qs] table IH]; intros n Hn Hm; [done|].
  destruct (any_pattern qs t) eqn:Hq.
  - exists 0, (i, qs). split; [lia|]. split; [done|].
    split; [by apply any_pattern_true|]. intros m e' Hlt. lia.
  - apply any_pattern_false in Hq. destruct n as [|n]; simpl in Hn.
    + injection Hn as <-. done.
    + destruct (IH n Hn Hm) as (n0 & e0 & Hle & Hn0 & Hm0 & Hbefore).
      exists (S n0), e0. split; [lia|]. split; [done|]. split; [done|].
      intros [|m] e' Hlt He'; simpl in He'.
      * by injection He' as <-.
      * apply (Hbefore m e'); [lia|done].
Qed.

Lemma lower_char_not_upper (c : ascii) : is_upper (lower_char c) = false.
Proof.
  destruct c as [b0 b1 b2 b3 b4 b5 b6 b7].
  destruct b0, b1, b2, b3, b4, b5, b6, b7; reflexivity.
Qed.

Lemma lstrip_spec (s : list ascii) :
  ∃ l, s = l ++ lstrip s
       ∧ Forall (λ c, is_space c = true) l
       ∧ ∀ c, head (lstrip s) = Some c → is_space c = false.
Proof.
  induction s as [|x s (l & Hs & Hl & Hh)]; simpl.
  - exists []. by split; [|split].
  - destruct (is_space x) eqn:Hx.
    + exists (x :: l). split; [by rewrite Hs at 1|].
      split; [by constructor|done].
    + exists []. split; [done|]. split; [constructor|].
      by intros c [= <-].
Qed.

(** [strip] removes white space, and only white space, from both ends. *)
Lemma strip_spec (s : list ascii) :
  ∃ l r, s = l ++ strip s ++ r
         ∧ Forall (λ c, is_space c = true) l
         ∧ Forall (λ c, is_space c = true) r
         ∧ (∀ c, head (strip s) = Some c → is_space c = false)
         ∧ (∀ c, last (strip s) = Some c → is_space c = false).
Proof.
  destruct (lstrip_spec s) as (l & Hs & Hl & Hh).
  destruct (lstrip_spec (reverse (lstrip s))) as (r & Hr & Hrs & Hrh).
  assert (Hu : lstrip s = strip s ++ reverse r).
  { unfold strip. rewrite <- reverse_app, <- Hr.
    by rewrite reverse_involutive. }
  exists l, (reverse r). split; [by rewrite <- Hu|]. split; [done|].
  split; [by apply Forall_reverse|]. split.
  - intros c Hc. apply Hh. rewrite Hu.
    destruct (strip s); [done|]. done.
  - intros c Hc. apply Hrh. unfold strip in Hc.
    by rewrite last_reverse in Hc.
Qed.

Lemma normalise_lower (text : string) :
  Forall (λ c, is_upper c = false) (normalise text).
Proof.
  unfold normalise.
  destruct (strip_spec (lower (list_ascii_of_string text)))
    as (l & r & Hs & _).
  assert (H : Forall (λ c, is_upper c = false)
                (lower (list_ascii_of_string text))).
  { unfold lower. apply Forall_forall. intros c Hc.
    apply list_elem_of_In, in_map_iff in Hc as (c0 & <- & _).
    apply lower_char_not_upper. }
  rewrite Hs in H. apply Forall_app in H as [_ H].
  by apply Forall_app in H as [H _].
Qed.

Lemma intent_names :
  intent_patterns.*1 =
  ["schedule_appointment"; "check_availability"; "insurance_inquiry";
   "service_inquiry"; "office_hours"; "emergency"]%string.
Proof. reflexivity. Qed.

Lemma intent_names_NoDup : NoDup intent_patterns.*1.
Proof. rewrite intent_names. by compute_done. Qed.

(** C7. [extract_intent] normalises the text (every upper-case letter
    lowered, white space removed from both ends and nowhere else) and
    scans the table in its declaration order schedule_appointment,
    check_availability, insurance_inquiry, service_inquiry, office_hours,
    emergency: the result is the first intent one of whose patterns
    matches, with the entities extracted for it from the normalised
    text; with no match at all it is general_inquiry.  Hence when the
    patterns of several intents match, a later-declared one is never the
    answer. *)
Theorem extract_intent_first_match (text : string) :
  let t := normalise text in
  (∃ l r, lower_char <$> list_ascii_of_string text = l ++ t ++ r
          ∧ Forall (λ c, is_space c = true) l
          ∧ Forall (λ c, is_space c = true) r
          ∧ (∀ c, head t = Some c → is_space c = false)
          ∧ (∀ c, last t = Some c → is_space c = false))
  ∧ Forall (λ c, is_upper c = false) t
  ∧ intent_patterns.*1 =
    ["schedule_appointment"; "check_availability"; "insurance_inquiry";
     "service_inquiry"; "office_hours"; "emergency"]%string
  ∧ (∀ n intent ps,
       intent_patterns !! n = Some (intent, ps) →
       matches ps t →
       (∀ m e, m < n → intent_patterns !! m = Some e → ¬ matches e.2 t) →
       extract_intent text = (intent, extract_entities t intent))
  ∧ ((∀ e, e ∈ intent_patterns → ¬ matches e.2 t) →
     extract_intent text
     = ("general_inquiry"%string,
        {[ "query"%string := string_of_list_ascii t ]}))
  ∧ (∀ n m e1 e2,
       n < m →
       intent_patterns !! n = Some e1 → intent_patterns !! m = Some e2 →
       matches e1.2 t → matches e2.2 t →
       (extract_intent text).1 ≠ e2.1).
Proof.
  intros t.
  split; [apply (strip_spec (lower (list_ascii_of_string text)))|].
  split; [apply normalise_lower|].
  split; [apply intent_names|]. split; [|split].
  - intros n intent ps Hn Hm Hbefore. unfold extract_intent.
    fold (normalise text). fold t.
    by rewrite (scan_intents_first _ _ _ _ _ Hn Hm Hbefore).
  - intros Hno. unfold extract_intent. fold (normalise text). fold t.
    by rewrite (scan_intents_none _ _ Hno).
  - intros n m e1 e2 Hlt Hn Hm H1 H2.
    destruct (first_matching_entry _ _ _ _ Hn H1)
      as (n0 & [i0 ps0] & Hle & Hn0 & Hm0 & Hbefore).
    unfold extract_intent. fold (normalise text). fold t.
    rewrite (scan_intents_first _ _ _ _ _ Hn0 Hm0 Hbefore). simpl.
    intros Heq.
    assert (Hi : intent_patterns.*1 !! n0 = Some i0)
      by (by rewrite list_lookup_fmap, Hn0).
    assert (Hj : intent_patterns.*1 !! m = Some i0)
      by (by rewrite list_lookup_fmap, Hm, Heq).
    pose proof (NoDup_lookup _ _ _ _ intent_names_NoDup Hi Hj). lia.
Qed.

(** C8. The literal case of the specification. *)
Theorem extract_intent_cleaning_tomorrow :
  let text :=
    "I want to schedule a cleaning appointment for tomorrow morning"%string
  in
  let r := extract_intent text in
  r.1 = "schedule_appointment"%string
  ∧ r.2 !! "service_type"%string = Some "cleaning"%string
  ∧ r.2 !! "preferred_time"%string = Some "tomorrow"%string
  ∧ (∃ p, date_patterns !! 0 = Some p
          ∧ re_search p (normalise text)
            = Some (list_ascii_of_string "tomorrow")).
Proof.
  intros text r. split; [by vm_compute|]. split; [by vm_compute|].
  split; [by vm_compute|]. eexists. split; [reflexivity|]. by vm_compute.
Qed.

(** A text that names an emergency and asks for an appointment: both
    schedule_appointment (declared first) and emergency (declared last)
    have a matching pattern, and the answer is not emergency. *)
Lemma extract_intent_first_match_witness :
  let text :=
    "I have severe tooth pain and want to book an appointment"%string in
  (extract_intent text).1 ≠ "emergency"%string
  ∧ (extract_intent text).1 = "schedule_appointment"%string.
Proof.
  intros text. split; [|by vm_compute].
  destruct (extract_intent_first_match text) as (_ & _ & _ & _ & _ & H).
  destruct (intent_patterns !! 0) as [e1|] eqn:H1; [|by vm_compute in H1].
  destruct (intent_patterns !! 5) as [e2|] eqn:H2; [|by vm_compute in H2].
  assert (He2 : e2.1 = "emergency"%string)
    by (vm_compute in H2; by injection H2 as <-).
  rewrite <- He2. apply (H 0 5 e1 e2); [lia|done|done| |].
  - apply any_pattern_true. vm_compute in H1. injection H1 as <-.
    by vm_compute.
  - apply any_pattern_true. vm_compute in H2. injection H2 as <-.
    by vm_compute.
Defined.

End Intent.

(* ===================================================================== *)
(** ** Further properties of the scheduling engine                        *)
(* ===================================================================== *)

Module SchedulingExtra.
Import Time Model AppointmentService SchedulingSpec Scheduling.

Lemma minutes_30_pos : 0 < minutes 30.
Proof. by vm_compute. Qed.

(** Membership in the result of the [while] loop. *)
Lemma slots_loop_spec (dur : Z) (did : option string)
    (store : gmap string Appointment) (e c s : Z) :
  s ∈ slots_loop dur did store e c ↔
  ∃ i, 0 <= i ∧ s = c + minutes (30 * i) ∧ s + minutes dur <= e
       ∧ has_conflict s dur did store = false.
Proof.
  assert (H : ∀ (n : nat) c,
            (Z.to_nat (e - minutes dur - c + 1) ≤ n)%nat →
            s ∈ slots_loop dur did store e c ↔
            ∃ i, 0 <= i ∧ s = c + minutes (30 * i) ∧ s + minutes dur <= e
                 ∧ has_conflict s dur did store = false);
    [|by apply (H (Z.to_nat (e - minutes dur - c + 1)))].
  clear c. intros n. induction n as [|n IH]; intros c Hn.
  - rewrite slots_loop_step, bool_decide_false by lia.
    split; [by intros ?%elem_of_nil|].
    intros (i & Hi & -> & Hle & _). unfold minutes, us_per_minute in *. lia.
  - rewrite slots_loop_step. case_bool_decide as Hc.
    + assert (Hrec : s ∈ slots_loop dur did store e (c + minutes 30) ↔
                ∃ i, 0 <= i ∧ s = c + minutes 30 + minutes (30 * i)
                     ∧ s + minutes dur <= e
                     ∧ has_conflict s dur did store = false).
      { apply IH. pose proof minutes_30_pos. lia. }
      assert (Hshift : (∃ i, 0 <= i ∧ s = c + minutes (30 * i)
                           ∧ s + minutes dur <= e
                           ∧ has_conflict s dur did store = false) ↔
                s = c ∧ has_conflict c dur did store = false
                ∨ ∃ i, 0 <= i ∧ s = c + minutes 30 + minutes (30 * i)
                       ∧ s + minutes dur <= e
                       ∧ has_conflict s dur did store = false).
      { split.
        - intros (i & Hi & Hs & Hle & Hno).
          destruct (decide (i = 0)) as [->|Hi0].
          + left. unfold minutes in Hs. split; [lia|].
            replace c with s by (unfold minutes in *; lia). done.
          + right. exists (i - 1). split; [lia|].
            split; [unfold minutes in *; lia|done].
        - intros [[-> Hno]|(i & Hi & Hs & Hle & Hno)].
          + exists 0. split; [lia|]. split; [unfold minutes; lia|done].
          + exists (i + 1). split; [lia|].
            split; [unfold minutes in *; lia|done]. }
      rewrite Hshift. destruct (has_conflict c dur did store) eqn:Hcc; simpl.
      * rewrite Hrec. split; [by right|]. intros [[_ ?]|?]; done.
      * rewrite elem_of_cons, Hrec. split.
        -- intros [->|?]; [by left|by right].
        -- intros [[-> _]|?]; [by left|by right].
    + split; [by intros ?%elem_of_nil|].
      intros (i & Hi & -> & Hle & _). unfold minutes, us_per_minute in *.
      lia.
Qed.

Lemma slots_loop_sorted (dur : Z) (did : option string)
    (store : gmap string Appointment) (e c : Z) :
  StronglySorted Z.lt (slots_loop dur did store e c).
Proof.
  assert (H : ∀ (n : nat) c,
            (Z.to_nat (e - minutes dur - c + 1) ≤ n)%nat →
            StronglySorted Z.lt (slots_loop dur did store e c));
    [|by apply (H (Z.to_nat (e - minutes dur - c + 1)))].
  clear c. intros n. induction n as [|n IH]; intros c Hn.
  - rewrite slots_loop_step, bool_decide_false by lia. constructor.
  - rewrite slots_loop_step. case_bool_decide as Hc; [|constructor].
    assert (Hrec : StronglySorted Z.lt
                     (slots_loop dur did store e (c + minutes 30))).
    { apply IH. pose proof minutes_30_pos. lia. }
    destruct (negb (has_conflict c dur did store)); [|done].
    constructor; [done|]. apply Forall_forall. intros x Hx.
    apply slots_loop_spec in Hx as (i & Hi & -> & _).
    pose proof minutes_30_pos. unfold minutes in *. lia.
Qed.

Lemma has_conflict_false_active (sd dur : Z) (did : option string)
    (store : gmap string Appointment) :
  has_conflict sd dur did store = false ↔
  ∀ k b, store !! k = Some b → active b →
         conflict_rule sd dur did b = false.
Proof.
  rewrite <- not_true_iff_false, has_conflict_active. split.
  - intros H k b Hk Hb. apply not_true_iff_false. intros Hc.
    apply H. eauto.
  - intros H (k & b & Hk & Hb & Hc). by rewrite (H k b Hk Hb) in Hc.
Qed.

Lemma midnight_le (d : Z) : midnight d <= d < midnight d + us_per_day.
Proof.
  unfold midnight. pose proof (Z.mod_pos_bound d us_per_day).
  unfold us_per_day in *. lia.
Qed.

Lemma midnight_unique (d m : Z) :
  m mod us_per_day = 0 → m <= d < m + us_per_day → midnight d = m.
Proof.
  intros Hm Hd. unfold midnight.
  apply Z.mod_divide in Hm as [q ->]; [|by vm_compute].
  rewrite <- (Z.mod_unique_pos d us_per_day q (d - q * us_per_day)); lia.
Qed.

Lemma midnight_mod (d : Z) : midnight d mod us_per_day = 0.
Proof.
  unfold midnight. rewrite Zminus_mod, Z.mod_mod by (by vm_compute).
  rewrite Z.sub_diag. done.
Qed.

(** X1. The slots offered for a day are exactly the times 09:00 + 30 i
    minutes whose end does not pass 17:00 and that conflict with no
    stored active appointment; they come in increasing order, and for a
    non-negative duration all lie on the requested day. *)
Theorem get_available_slots_spec (date dur : Z) (did : option string)
    (store : gmap string Appointment) :
  let slots := get_available_slots date dur did store in
  (∀ s, s ∈ slots ↔
        ∃ i, 0 <= i ∧ s = at_hour date 9 + minutes (30 * i)
             ∧ s + minutes dur <= at_hour date 17
             ∧ ∀ k b, store !! k = Some b → active b →
                      conflict_rule s dur did b = false)
  ∧ StronglySorted Z.lt slots
  ∧ (0 <= dur → ∀ s, s ∈ slots → midnight s = midnight date).
Proof.
  intros slots. subst slots. unfold get_available_slots.
  split; [|split].
  - intros s. rewrite slots_loop_spec.
    by setoid_rewrite has_conflict_false_active.
  - apply slots_loop_sorted.
  - intros Hdur s Hs. apply slots_loop_spec in Hs as (i & Hi & Hs & Hle & _).
    apply midnight_unique; [apply midnight_mod|].
    unfold at_hour, hours, minutes, us_per_hour, us_per_minute, us_per_day
      in *.
    lia.
Qed.

(** X2. Every slot offered can be booked: [create_appointment] at an
    offered start, with the duration and dentist of the query, stores
    the appointment. *)
Theorem offered_slot_is_bookable (date dur : Z) (did : option string)
    (store : gmap string Appointment) (s now_c now_u : Z)
    (pid nts : string) (ty : AppointmentType) :
  s ∈ get_available_slots date dur did store →
  create_appointment now_c now_u pid ty s dur did nts store
  = (Some (init now_c now_u (next_id store) pid ty s dur did nts),
     <[next_id store :=
         init now_c now_u (next_id store) pid ty s dur did nts]> store).
Proof.
  intros Hs. unfold get_available_slots in Hs.
  apply slots_loop_spec in Hs as (i & _ & _ & _ & Hno).
  unfold create_appointment. by rewrite Hno.
Qed.

(** X3. Once an appointment of positive duration is booked, no slot
    offered afterwards on the same calendar (same dentist, or no dentist
    on either side) overlaps it; in particular its own start is no
    longer offered. *)
Theorem booked_interval_not_offered (now_c now_u : Z) (pid nts : string)
    (ty : AppointmentType) (sd dur : Z) (did : option string)
    (store : gmap string Appointment) (new : Appointment)
    (date dur' : Z) (did' : option string) :
  (create_appointment now_c now_u pid ty sd dur did nts store).1
    = Some new →
  ¬ (has_dentist did' ∧ has_dentist did ∧ did ≠ did') →
  let store' :=
    (create_appointment now_c now_u pid ty sd dur did nts store).2 in
  (∀ s, s ∈ get_available_slots date dur' did' store' →
        ¬ intervals_overlap s dur' sd dur)
  ∧ (0 < dur → 0 < dur' → sd ∉ get_available_slots date dur' did' store').
Proof.
  intros Hnew Hcal store'. subst store'.
  unfold create_appointment in *.
  destruct (has_conflict sd dur did store) eqn:Hc; [done|]. simpl in *.
  injection Hnew as <-.
  assert (Hno : ∀ s, s ∈ get_available_slots date dur' did'
                        (<[next_id store :=
                             init now_c now_u (next_id store) pid ty sd dur
                               did nts]> store) →
                ¬ intervals_overlap s dur' sd dur).
  { intros s Hs Hov. unfold get_available_slots in Hs.
    apply slots_loop_spec in Hs as (i & _ & _ & _ & Hfree).
    pose proof (proj1 (has_conflict_false_active _ _ _ _) Hfree
                  (next_id store) _ (lookup_insert_eq _ _ _)) as Hb.
    assert (Hact : active (init now_c now_u (next_id store) pid ty sd dur
                             did nts)) by (by split).
    specialize (Hb Hact). apply not_true_iff_false in Hb. apply Hb.
    apply conflict_rule_true. simpl. split; [done|]. done. }
  split; [done|]. intros Hd Hd' Hin. apply (Hno sd Hin).
  unfold intervals_overlap, minutes, us_per_minute. lia.
Qed.

(** X4. A successful cancellation frees the calendar of that
    appointment and of nothing else: afterwards a request has a conflict
    iff it conflicts with an active appointment stored under another
    id. *)
Theorem cancel_frees_interval (now_check now_u : Z) (aid reason : string)
    (store : gmap string Appointment) (sd dur : Z) (did : option string) :
  (cancel_appointment now_check now_u aid reason store).1 = true →
  has_conflict sd dur did
    (cancel_appointment now_check now_u aid reason store).2 = true ↔
  ∃ k b, k ≠ aid ∧ store !! k = Some b ∧ active b
         ∧ conflict_rule sd dur did b = true.
Proof.
  unfold cancel_appointment, get_appointment.
  destruct (store !! aid) as [a|] eqn:Ha; [|done].
  destruct (can_be_cancelled now_check a); [|done]. simpl. intros _.
  rewrite has_conflict_active. split.
  - intros (k & b & Hk & Hb & Hc). destruct (decide (k = aid)) as [->|Hne].
    + rewrite lookup_insert_eq in Hk. injection Hk as <-.
      destruct Hb as [Hb _]. done.
    + rewrite lookup_insert_ne in Hk by done. exists k, b. done.
  - intros (k & b & Hne & Hk & Hb & Hc). exists k, b.
    by rewrite lookup_insert_ne.
Qed.

(** Replacing an appointment by one with the same interval and dentist
    that is active only if the old one was keeps the store conflict
    free. *)
Lemma conflict_free_replace (store : gmap string Appointment) (k : string)
    (a a' : Appointment) :
  store !! k = Some a →
  scheduled_date a' = scheduled_date a →
  duration_minutes a' = duration_minutes a →
  dentist_id a' = dentist_id a →
  (active a' → active a) →
  conflict_free store → conflict_free (<[k := a']> store).
Proof.
  intros Ha Hsd Hdur Hdid Hact Hfree k1 k2 x y Hne H1 H2 Hx Hy Hcal.
  assert (Hcw : ∀ z, is_conflict_with a' z = is_conflict_with a z)
    by (intros z; unfold is_conflict_with, get_end_time;
        by rewrite Hsd, Hdur).
  assert (Hcw' : ∀ z, is_conflict_with z a' = is_conflict_with z a)
    by (intros z; unfold is_conflict_with, get_end_time;
        by rewrite Hsd, Hdur).
  destruct (decide (k1 = k)) as [->|Hk1];
    destruct (decide (k2 = k)) as [->|Hk2]; [done| | |].
  - rewrite lookup_insert_eq in H1. rewrite lookup_insert_ne in H2 by done.
    injection H1 as <-. rewrite Hcw.
    apply (Hfree k k2 a y Hne Ha H2 (Hact Hx) Hy).
    unfold same_calendar in *. by rewrite <- Hdid.
  - rewrite lookup_insert_eq in H2. rewrite lookup_insert_ne in H1 by done.
    injection H2 as <-. rewrite Hcw'.
    apply (Hfree k1 k x a Hne H1 Ha Hx (Hact Hy)).
    unfold same_calendar in *. by rewrite <- Hdid.
  - rewrite lookup_insert_ne in H1, H2 by done.
    exact (Hfree k1 k2 x y Hne H1 H2 Hx Hy Hcal).
Qed.

Lemma service_step_conflict_free (isoformat : Z → string)
    (store : gmap string Appointment) (c : service_call) :
  conflict_free store → keeps_calendar store c →
  conflict_free (service_step isoformat store c).
Proof.
  intros Hfree Hkeep.
  destruct c as [now_c now_u pid ty sd dur did nts | now aid nd
                | now_check now_u aid reason | now aid st
                | now_t now_u aid note dentist]; simpl in *.
  - apply (step_conflict_free store
             (Create now_c now_u pid ty sd dur did nts) Hfree).
  - apply (step_conflict_free store (Reschedule now aid nd) Hfree).
  - unfold cancel_appointment, get_appointment.
    destruct (store !! aid) as [a|] eqn:Ha; [|done].
    destruct (can_be_cancelled now_check a); [|done]. simpl.
    apply (conflict_free_replace store aid a); try done.
    by intros [? _].
  - unfold update_appointment_status, get_appointment.
    destruct (store !! aid) as [a|] eqn:Ha; [|done]. simpl.
    apply (conflict_free_replace store aid a); try done.
    intros [H1 H2]. simpl in *. destruct Hkeep as [?|[?|?]]; done.
  - unfold AppointmentService.add_treatment_note, get_appointment.
    destruct (store !! aid) as [a|] eqn:Ha; [|done]. simpl.
    by apply (conflict_free_replace store aid a).
Qed.

(** X5. The no-double-booking invariant is kept by every call of the
    service (create, reschedule, cancel, status update, treatment note)
    as long as no status update brings a cancelled or no-show
    appointment back to an active status. *)
Theorem service_calls_keep_conflict_free (isoformat : Z → string)
    (calls : list service_call) (store : gmap string Appointment) :
  conflict_free store →
  all_keep_calendar isoformat calls store →
  conflict_free (service_run isoformat calls store).
Proof.
  unfold service_run. revert store.
  induction calls as [|c calls IH]; intros store Hfree Hall; simpl; [done|].
  destruct Hall as [Hc Hrest]. apply IH; [|done].
  by apply service_step_conflict_free.
Qed.

(** X6. [update_appointment_status] does not scan for conflicts: giving
    an active status to a cancelled or no-show appointment that overlaps
    an active one of its calendar produces a double booking. *)
Theorem reactivation_double_books (now : Z) (k k' : string)
    (a b : Appointment) (st : AppointmentStatus)
    (store : gmap string Appointment) :
  store !! k = Some a → store !! k' = Some b → k ≠ k' →
  active b → same_calendar a b → is_conflict_with a b = true →
  st ≠ CANCELLED → st ≠ NO_SHOW →
  (update_appointment_status now k st store).1 = true
  ∧ ¬ conflict_free (update_appointment_status now k st store).2.
Proof.
  intros Ha Hb Hne Hactb Hcal Hov Hs1 Hs2.
  unfold update_appointment_status, get_appointment. rewrite Ha. simpl.
  split; [done|]. intros Hfree.
  assert (Hfalse : is_conflict_with (update_status now st a) b = false).
  { apply (Hfree k k'); try done.
    - apply lookup_insert_eq.
    - by rewrite lookup_insert_ne. }
  unfold is_conflict_with, get_end_time in *. simpl in Hfalse.
  by rewrite Hov in Hfalse.
Qed.

(** Reading back the number printed by [zfill4]. *)
Lemma zeros_succ (k : nat) :
  String.concat "" (replicate (S k) "0")
  = String "0" (String.concat "" (replicate k "0")).
Proof. by destruct k. Qed.

Lemma read_zeros (k : nat) (t : string) :
  NilEmpty.uint_of_string (String.concat "" (replicate k "0") ++ t)
  = Nat.iter k Decimal.D0 <$> NilEmpty.uint_of_string t.
Proof.
  induction k as [|k IH].
  - change (String.concat "" (replicate 0 "0") ++ t) with t.
    by destruct (NilEmpty.uint_of_string t).
  - rewrite zeros_succ.
    change (String "0" (String.concat "" (replicate k "0")) ++ t)
      with (String "0" (String.concat "" (replicate k "0") ++ t)).
    cbn [NilEmpty.uint_of_string]. rewrite IH.
    by destruct (NilEmpty.uint_of_string t).
Qed.

Lemma of_uint_zeros (k : nat) (d : Decimal.uint) :
  N.of_uint (Nat.iter k Decimal.D0 d) = N.of_uint d.
Proof. induction k as [|k IH]; [done|]. simpl. exact IH. Qed.

Lemma zfill4_read (n : N) :
  N.of_uint <$> NilEmpty.uint_of_string (zfill4 n) = Some n.
Proof.
  unfold zfill4. rewrite read_zeros.
  assert (Hnil : N.to_uint n ≠ Decimal.Nil).
  { destruct n; [done|]. apply DecimalPos.Unsigned.to_uint_nonnil. }
  assert (Hs : NilZero.string_of_uint (N.to_uint n)
               = NilEmpty.string_of_uint (N.to_uint n)).
  { unfold NilZero.string_of_uint. by destruct (N.to_uint n). }
  rewrite Hs, NilEmpty.usu. simpl.
  by rewrite of_uint_zeros, DecimalN.Unsigned.of_to.
Qed.

Lemma zfill4_inj (i j : N) : zfill4 i = zfill4 j → i = j.
Proof.
  intros H. pose proof (zfill4_read i) as Hi. rewrite H, zfill4_read in Hi.
  by injection Hi.
Qed.

Lemma insert_existing_size (store : gmap string Appointment) (k : string)
    (a a' : Appointment) :
  store !! k = Some a → size (<[k := a']> store) = size store.
Proof.
  intros Ha. apply map_size_insert_Some. by rewrite Ha.
Qed.

Lemma sequential_replace (store : gmap string Appointment) (k : string)
    (a a' : Appointment) :
  store !! k = Some a → sequential store → sequential (<[k := a']> store).
Proof.
  intros Ha Hseq k0. unfold sequential in Hseq.
  rewrite (insert_existing_size store k a a' Ha).
  transitivity (is_Some (store !! k0)); [|apply Hseq].
  destruct (decide (k = k0)) as [->|Hne].
  - rewrite lookup_insert_eq, Ha. by split.
  - by rewrite lookup_insert_ne.
Qed.

Lemma well_keyed_replace (store : gmap string Appointment) (k : string)
    (a a' : Appointment) :
  store !! k = Some a → appointment_id a' = appointment_id a →
  well_keyed store → well_keyed (<[k := a']> store).
Proof.
  intros Ha Hid Hwk k0 x Hx. destruct (decide (k = k0)) as [->|Hne].
  - rewrite lookup_insert_eq in Hx. injection Hx as <-.
    rewrite Hid. by apply Hwk.
  - rewrite lookup_insert_ne in Hx by done. by apply Hwk.
Qed.

Lemma next_id_fresh (store : gmap string Appointment) :
  sequential store → store !! next_id store = None.
Proof.
  intros Hseq. apply eq_None_not_Some. intros Hsome.
  apply Hseq in Hsome as (i & Hi & Heq). unfold next_id in Heq.
  injection Heq as Heq. apply zfill4_inj in Heq. lia.
Qed.

Lemma sequential_create (store : gmap string Appointment)
    (a : Appointment) :
  sequential store → sequential (<[next_id store := a]> store).
Proof.
  intros Hseq k. pose proof (Hseq k) as Hk.
  rewrite (map_size_insert_None _ _ _ (next_id_fresh store Hseq)).
  destruct (decide (next_id store = k)) as [<-|Hne].
  - rewrite lookup_insert_eq. split; [|by eauto].
    intros _. exists (N.of_nat (size store) + 1)%N. split; [lia|done].
  - rewrite lookup_insert_ne by done. split.
    + intros (i & Hi & ->)%Hk. exists i. split; [lia|done].
    + intros (i & Hi & ->). apply Hk. exists i. split; [|done].
      destruct (decide (i = N.of_nat (size store) + 1)%N) as [->|]; [|lia].
      done.
Qed.

Lemma service_step_ids (isoformat : Z → string)
    (store : gmap string Appointment) (c : service_call) :
  sequential store ∧ well_keyed store →
  sequential (service_step isoformat store c)
  ∧ well_keyed (service_step isoformat store c).
Proof.
  intros [Hseq Hwk].
  destruct c as [now_c now_u pid ty sd dur did nts | now aid nd
                | now_check now_u aid reason | now aid st
                | now_t now_u aid note dentist]; simpl.
  - unfold create_appointment.
    destruct (has_conflict sd dur did store); simpl; [done|].
    split; [by apply sequential_create|].
    intros k x Hx. destruct (decide (next_id store = k)) as [<-|Hne].
    + rewrite lookup_insert_eq in Hx. by injection Hx as <-.
    + rewrite lookup_insert_ne in Hx by done. by apply Hwk.
  - unfold reschedule_appointment, get_appointment.
    destruct (store !! aid) as [a|] eqn:Ha; [|done].
    destruct (has_conflict _ _ _ store); simpl; [done|].
    split; [by eapply sequential_replace|by eapply well_keyed_replace].
  - unfold cancel_appointment, get_appointment.
    destruct (store !! aid) as [a|] eqn:Ha; [|done].
    destruct (can_be_cancelled now_check a); simpl; [|done].
    split; [by eapply sequential_replace|by eapply well_keyed_replace].
  - unfold update_appointment_status, get_appointment.
    destruct (store !! aid) as [a|] eqn:Ha; [|done]. simpl.
    split; [by eapply sequential_replace|by eapply well_keyed_replace].
  - unfold AppointmentService.add_treatment_note, get_appointment.
    destruct (store !! aid) as [a|] eqn:Ha; [|done]. simpl.
    split; [by eapply sequential_replace|by eapply well_keyed_replace].
Qed.

Lemma service_run_ids (isoformat : Z → string) (calls : list service_call)
    (store : gmap string Appointment) :
  sequential store ∧ well_keyed store →
  sequential (service_run isoformat calls store)
  ∧ well_keyed (service_run isoformat calls store).
Proof.
  unfold service_run. revert store.
  induction calls as [|c calls IH]; intros store H; simpl; [done|].
  apply IH. by apply service_step_ids.
Qed.

Lemma sequential_empty : sequential ∅ ∧ well_keyed ∅.
Proof.
  split.
  - intros k. rewrite lookup_empty, map_size_empty. split.
    + by intros [? ?].
    + intros (i & Hi & _). lia.
  - intros k a H. by rewrite lookup_empty in H.
Qed.

(** X7. In a store built from the empty one by calls of the service,
    the keys are exactly the generated ids A0001, A0002, ... up to the
    number of appointments, each appointment is stored under its own id,
    and an accepted [create_appointment] uses a fresh key: it keeps every
    stored appointment and makes the store one larger. *)
Theorem service_ids_sequential (isoformat : Z → string)
    (calls : list service_call) :
  let store := service_run isoformat calls ∅ in
  sequential store
  ∧ well_keyed store
  ∧ ∀ now_c now_u pid ty sd dur did nts new,
      (create_appointment now_c now_u pid ty sd dur did nts store).1
        = Some new →
      let store' :=
        (create_appointment now_c now_u pid ty sd dur did nts store).2 in
      store !! appointment_id new = None
      ∧ store' !! appointment_id new = Some new
      ∧ (∀ k a, store !! k = Some a → store' !! k = Some a)
      ∧ size store' = S (size store).
Proof.
  intros store.
  destruct (service_run_ids isoformat calls ∅ sequential_empty)
    as [Hseq Hwk].
  fold store in Hseq, Hwk. split; [done|]. split; [done|].
  intros now_c now_u pid ty sd dur did nts new.
  unfold create_appointment.
  destruct (has_conflict sd dur did store); simpl; [done|].
  intros [= <-]. simpl.
  pose proof (next_id_fresh store Hseq) as Hfresh.
  split; [done|]. split; [apply lookup_insert_eq|]. split.
  - intros k a Hk. rewrite lookup_insert_ne; [done|]. congruence.
  - by apply map_size_insert_None.
Qed.

Lemma filter_values_spec (P : Appointment → bool)
    (store : gmap string Appointment) (a : Appointment) :
  a ∈ List.filter P (appointments_values store) ↔
  (∃ k, store !! k = Some a) ∧ P a = true.
Proof.
  rewrite list_elem_of_In, filter_In. unfold appointments_values.
  by rewrite values_spec.
Qed.

Lemma bookable_status (a : Appointment) :
  bool_decide (status a ∈ [SCHEDULED; CONFIRMED]) = true ↔
  status a = SCHEDULED ∨ status a = CONFIRMED.
Proof.
  rewrite bool_decide_eq_true, !elem_of_cons, elem_of_nil. tauto.
Qed.

(** X8. The upcoming list holds exactly the stored scheduled or
    confirmed appointments that start after the clock and at most the
    given number of hours later; the overdue list those that start
    before the clock.  No appointment is in both lists for one reading
    of the clock, one that starts exactly at the clock is in neither,
    and with a horizon of zero hours or less nothing is upcoming.  The
    time test of the upcoming list is the appointment's own
    [is_upcoming]. *)
Theorem upcoming_overdue_spec (now hrs : Z)
    (store : gmap string Appointment) (a : Appointment) :
  (a ∈ get_upcoming_appointments now hrs store ↔
     (∃ k, store !! k = Some a)
     ∧ (status a = SCHEDULED ∨ status a = CONFIRMED)
     ∧ now < scheduled_date a <= now + hours hrs)
  ∧ (a ∈ get_overdue_appointments now store ↔
       (∃ k, store !! k = Some a)
       ∧ (status a = SCHEDULED ∨ status a = CONFIRMED)
       ∧ scheduled_date a < now)
  ∧ ¬ (a ∈ get_upcoming_appointments now hrs store
       ∧ a ∈ get_overdue_appointments now store)
  ∧ (scheduled_date a = now →
     (a ∉ get_upcoming_appointments now hrs store)
     ∧ (a ∉ get_overdue_appointments now store))
  ∧ (hrs <= 0 → get_upcoming_appointments now hrs store = [])
  ∧ (a ∈ get_upcoming_appointments now hrs store ↔
       (∃ k, store !! k = Some a)
       ∧ (status a = SCHEDULED ∨ status a = CONFIRMED)
       ∧ is_upcoming now hrs a = true).
Proof.
  assert (Hup : a ∈ get_upcoming_appointments now hrs store ↔
            (∃ k, store !! k = Some a)
            ∧ (status a = SCHEDULED ∨ status a = CONFIRMED)
            ∧ now < scheduled_date a <= now + hours hrs).
  { unfold get_upcoming_appointments. rewrite filter_values_spec.
    rewrite !andb_true_iff, bookable_status, Z.gtb_ltb, Z.ltb_lt, Z.leb_le.
    tauto. }
  assert (Hov : a ∈ get_overdue_appointments now store ↔
            (∃ k, store !! k = Some a)
            ∧ (status a = SCHEDULED ∨ status a = CONFIRMED)
            ∧ scheduled_date a < now).
  { unfold get_overdue_appointments. rewrite filter_values_spec.
    rewrite !andb_true_iff, bookable_status, Z.ltb_lt. tauto. }
  split; [done|]. split; [done|]. split; [|split; [|split]].
  4:{ rewrite Hup. unfold is_upcoming.
      rewrite andb_true_iff, Z.gtb_ltb, Z.ltb_lt, Z.leb_le. tauto. }
  - rewrite Hup, Hov. lia.
  - intros Heq. rewrite Hup, Hov. lia.
  - intros Hh. unfold get_upcoming_appointments.
    induction (appointments_values store) as [|x l IH]; [done|]. simpl.
    rewrite IH. rewrite Z.gtb_ltb.
    destruct (bool_decide _); simpl; [|done].
    destruct (Z.ltb_spec now (scheduled_date x)); simpl; [|done].
    destruct (Z.leb_spec (scheduled_date x) (now + hours hrs)); [|done].
    unfold hours, us_per_hour in *. lia.
Qed.

(** X9. An appointment that is upcoming within the next 24 hours can no
    longer be cancelled: at the same clock reading [cancel_appointment]
    returns false and changes nothing, whatever the reason given. *)
Theorem upcoming_cannot_be_cancelled (now now_u : Z) (aid reason : string)
    (store : gmap string Appointment) (a : Appointment) :
  store !! aid = Some a →
  a ∈ get_upcoming_appointments now 24 store →
  cancel_appointment now now_u aid reason store = (false, store).
Proof.
  intros Ha Hup. unfold get_upcoming_appointments in Hup.
  apply filter_values_spec in Hup as [_ Hup].
  rewrite !andb_true_iff, Z.leb_le in Hup. destruct Hup as [_ Hle].
  unfold cancel_appointment, get_appointment. rewrite Ha.
  assert (Hno : can_be_cancelled now a = false).
  { unfold can_be_cancelled. rewrite Z.gtb_ltb. apply Z.ltb_ge. lia. }
  by rewrite Hno.
Qed.

Lemma status_partition (l : list Appointment) :
  sum_list
    ((λ st, length (List.filter (λ app, bool_decide (status app = st)) l))
       <$> all_statuses)
  = length l.
Proof.
  induction l as [|x l IH]; [done|].
  simpl in *. destruct (status x); simpl; lia.
Qed.

Lemma type_partition (l : list Appointment) :
  sum_list
    ((λ ty,
        length (List.filter
                  (λ app, bool_decide (appointment_type app = ty)) l))
       <$> all_types)
  = length l.
Proof.
  induction l as [|x l IH]; [done|].
  simpl in *. destruct (appointment_type x); simpl; lia.
Qed.

Lemma values_length (store : gmap string Appointment) :
  length (appointments_values store) = size store.
Proof.
  unfold appointments_values. by rewrite length_fmap, length_map_to_list.
Qed.

Lemma filter_length_le (P : Appointment → bool) (l : list Appointment) :
  (length (List.filter P l) ≤ length l)%nat.
Proof.
  induction l as [|x l IH]; simpl; [done|]. destruct (P x); simpl; lia.
Qed.

Lemma status_distribution_lookup (now_up now_over : Z)
    (store : gmap string Appointment) (st : AppointmentStatus) :
  status_distribution (get_appointment_statistics now_up now_over store)
    !! status_value st
  = Some (length (get_appointments_by_status st store)).
Proof.
  unfold get_appointment_statistics. simpl.
  destruct st; simpl; by simplify_map_eq.
Qed.

Lemma type_distribution_lookup (now_up now_over : Z)
    (store : gmap string Appointment) (ty : AppointmentType) :
  type_distribution (get_appointment_statistics now_up now_over store)
    !! type_value ty
  = Some (length (List.filter
                    (λ app, bool_decide (appointment_type app = ty))
                    (appointments_values store))).
Proof.
  unfold get_appointment_statistics. simpl.
  destruct ty; simpl; by simplify_map_eq.
Qed.

(** X10. In the statistics every status (every type) has its entry, the
    number of stored appointments with that status (type); the entries
    of each distribution add up to the total, and neither the upcoming
    nor the overdue count exceeds it. *)
Theorem statistics_add_up (now_up now_over : Z)
    (store : gmap string Appointment) :
  let stats := get_appointment_statistics now_up now_over store in
  total_appointments stats = size store
  ∧ (∀ st, status_distribution stats !! status_value st
           = Some (length (get_appointments_by_status st store)))
  ∧ (∀ ty, type_distribution stats !! type_value ty
           = Some (length (List.filter
                             (λ app, bool_decide (appointment_type app = ty))
                             (appointments_values store))))
  ∧ sum_list ((λ st, default 0%nat
                       (status_distribution stats !! status_value st))
                <$> all_statuses)
    = total_appointments stats
  ∧ sum_list ((λ ty, default 0%nat
                       (type_distribution stats !! type_value ty))
                <$> all_types)
    = total_appointments stats
  ∧ (upcoming_appointments stats ≤ total_appointments stats)%nat
  ∧ (overdue_appointments stats ≤ total_appointments stats)%nat.
Proof.
  intros stats.
  split; [done|]. split; [apply status_distribution_lookup|].
  split; [apply type_distribution_lookup|]. split; [|split].
  - pose proof (status_partition (appointments_values store)) as H.
    subst stats. unfold all_statuses in *. cbn [fmap list_fmap] in *.
    rewrite !status_distribution_lookup. cbn [default].
    unfold get_appointments_by_status.
    change (total_appointments _) with (size store).
    rewrite <- values_length, <- H. reflexivity.
  - pose proof (type_partition (appointments_values store)) as H.
    subst stats. unfold all_types in *. cbn [fmap list_fmap] in *.
    rewrite !type_distribution_lookup. cbn [default].
    change (total_appointments _) with (size store).
    rewrite <- values_length, <- H. reflexivity.
  - subst stats. simpl. rewrite <- values_length.
    split; apply filter_length_le.
Qed.

(** X11. The appointments listed for a date are the stored ones that
    start on that calendar day; and an appointment booked in a slot that
    was offered for a date (non-negative duration) is listed for that
    date. *)
Theorem appointments_by_date_spec (date : Z)
    (store : gmap string Appointment) :
  (∀ a, a ∈ get_appointments_by_date date store ↔
        (∃ k, store !! k = Some a)
        ∧ midnight date <= scheduled_date a < midnight date + us_per_day)
  ∧ (∀ dur did s now_c now_u pid ty nts,
       0 <= dur →
       s ∈ get_available_slots date dur did store →
       let r := create_appointment now_c now_u pid ty s dur did nts store in
       ∃ new, r.1 = Some new ∧ scheduled_date new = s
              ∧ new ∈ get_appointments_by_date date r.2).
Proof.
  assert (Hday : ∀ d, midnight d = midnight date ↔
            midnight date <= d < midnight date + us_per_day).
  { intros d. split.
    - intros <-. apply midnight_le.
    - intros H. apply midnight_unique; [apply midnight_mod|done]. }
  assert (Hlist : ∀ st a, a ∈ get_appointments_by_date date st ↔
            (∃ k, st !! k = Some a)
            ∧ midnight date <= scheduled_date a
              < midnight date + us_per_day).
  { intros st a. unfold get_appointments_by_date.
    by rewrite filter_values_spec, Z.eqb_eq, Hday. }
  split; [apply Hlist|].
  intros dur did s now_c now_u pid ty nts Hdur Hs r. subst r.
  unfold get_available_slots in Hs.
  apply slots_loop_spec in Hs as (i & Hi & Heq & Hle & Hno).
  unfold create_appointment. rewrite Hno. simpl.
  eexists. split; [done|]. split; [done|].
  apply Hlist. split; [eexists; apply lookup_insert_eq|]. simpl.
  pose proof (midnight_le date).
  unfold at_hour, hours, minutes, us_per_hour, us_per_minute, us_per_day
    in *.
  lia.
Qed.

(** *** Concrete instances *)

Lemma offered_slot_is_bookable_witness :
  let a := init 0 0 "A0001" "P0001" CLEANING (hours 10) 60 None "" in
  let store : gmap string Appointment := {[ "A0001" := a ]} in
  (create_appointment 1 1 "P0002" FILLING (hours 11) 60 (Some "D1") ""
     store).1
  = Some (init 1 1 "A0002" "P0002" FILLING (hours 11) 60 (Some "D1") "").
Proof.
  intros a store.
  rewrite (offered_slot_is_bookable 0 60 (Some "D1") store (hours 11) 1 1
             "P0002" "" FILLING).
  - by vm_compute.
  - apply list_elem_of_In. vm_compute. auto 20.
Defined.

Lemma booked_interval_not_offered_witness :
  let store' :=
    (create_appointment 1 1 "P0001" CLEANING (hours 10) 60 None "" ∅).2 in
  hours 10 ∉ get_available_slots 0 30 (Some "D1") store'.
Proof.
  intros store'.
  refine (proj2 (booked_interval_not_offered 1 1 "P0001" "" CLEANING
                   (hours 10) 60 None ∅
                   (init 1 1 "A0001" "P0001" CLEANING (hours 10) 60 None "")
                   0 30 (Some "D1") _ _) _ _).
  - by vm_compute.
  - intros (_ & (x & [=] & _) & _).
  - by vm_compute.
  - by vm_compute.
Defined.

Lemma cancel_frees_interval_witness :
  let a := init 0 0 "A0001" "P0001" CLEANING (hours 48) 60 None "" in
  let store : gmap string Appointment := {[ "A0001" := a ]} in
  has_conflict (hours 48) 60 None store = true
  ∧ has_conflict (hours 48) 60 None
      (cancel_appointment 0 0 "A0001" "" store).2 = false.
Proof.
  intros a store. split; [by vm_compute|].
  apply not_true_iff_false. intros H.
  apply (cancel_frees_interval 0 0 "A0001" "" store (hours 48) 60 None)
    in H as (k & b & Hne & Hk & _).
  - apply lookup_singleton_Some in Hk as [Hk _]. by apply Hne.
  - by vm_compute.
Defined.

Lemma service_calls_keep_conflict_free_witness :
  conflict_free
    (service_run (λ _, "")
       [ SCreate 0 0 "P1" CLEANING (hours 48) 60 None "";
         SCreate 0 0 "P2" FILLING (hours 48 + minutes 30) 60 (Some "D1") "";
         SAddTreatmentNote 1 1 "A0001" "x-ray" "D1";
         SUpdateStatus 2 "A0001" CONFIRMED;
         SCancel 3 3 "A0001" "sick";
         SCreate 4 4 "P2" FILLING (hours 48 + minutes 30) 60 (Some "D1") "" ]
       ∅).
Proof.
  apply service_calls_keep_conflict_free.
  - intros k1 k2 a b _ H. by rewrite lookup_empty in H.
  - vm_compute. split; [exact I|]. split; [exact I|]. split; [exact I|].
    split; [|by repeat split]. left. split; intros [=].
Defined.

Lemma reactivation_double_books_witness :
  let a :=
    set_status CANCELLED
      (init 0 0 "A0001" "P0001" CLEANING (hours 48) 60 None "") in
  let b := init 0 0 "A0002" "P0002" FILLING (hours 48) 60 None "" in
  let store : gmap string Appointment :=
    <["A0002" := b]> {[ "A0001" := a ]} in
  conflict_free store
  ∧ ¬ conflict_free (update_appointment_status 1 "A0001" SCHEDULED store).2.
Proof.
  intros a b store. split.
  - intros k1 k2 x y Hne H1 H2 Hx Hy _.
    assert (Hk : ∀ k z, store !! k = Some z → active z → z = b).
    { intros k z Hz Hact. subst store.
      apply lookup_insert_Some in Hz as [[_ <-]|[_ Hz]]; [done|].
      apply lookup_singleton_Some in Hz as [_ <-].
      destruct Hact as [Hact _]. done. }
    assert (Hkey : ∀ k z, store !! k = Some z → active z → k = "A0002").
    { intros k z Hz Hact. subst store.
      apply lookup_insert_Some in Hz as [[<- _]|[_ Hz]]; [done|].
      apply lookup_singleton_Some in Hz as [_ <-].
      destruct Hact as [Hact _]. done. }
    rewrite (Hkey k1 x H1 Hx), (Hkey k2 y H2 Hy) in Hne. done.
  - refine (proj2 (reactivation_double_books 1 "A0001" "A0002" a b SCHEDULED
                     store _ _ _ _ _ _ _ _)); try done.
    by left.
Defined.

Lemma upcoming_cannot_be_cancelled_witness :
  let a := init 0 0 "A0001" "P0001" CLEANING (hours 10) 60 None "" in
  let store : gmap string Appointment := {[ "A0001" := a ]} in
  cancel_appointment 0 0 "A0001" "sick" store = (false, store).
Proof.
  intros a store.
  apply (upcoming_cannot_be_cancelled 0 0 "A0001" "sick" store a).
  - by vm_compute.
  - apply list_elem_of_In. vm_compute. auto.
Defined.

(** The loop of [get_available_slots] looks at the store only through
    the scan. *)
Lemma slots_loop_ext (dur : Z) (did did' : option string)
    (store store' : gmap string Appointment) (e c : Z) :
  (∀ s, has_conflict s dur did store = has_conflict s dur did' store') →
  slots_loop dur did store e c = slots_loop dur did' store' e c.
Proof.
  intros Hext.
  assert (H : ∀ (n : nat) c,
            (Z.to_nat (e - minutes dur - c + 1) ≤ n)%nat →
            slots_loop dur did store e c = slots_loop dur did' store' e c);
    [|by apply (H (Z.to_nat (e - minutes dur - c + 1)))].
  clear c. intros n. induction n as [|n IH]; intros c Hn.
  - rewrite (slots_loop_step dur did store e c),
      (slots_loop_step dur did' store' e c).
    by rewrite !bool_decide_false by lia.
  - rewrite (slots_loop_step dur did store e c),
      (slots_loop_step dur did' store' e c).
    case_bool_decide as Hc; [|done].
    rewrite Hext, IH; [done|]. pose proof minutes_30_pos. lia.
Qed.

Lemma has_conflict_eq (sd dur : Z) (did did' : option string)
    (store store' : gmap string Appointment) :
  ((∃ k b, store !! k = Some b ∧ active b
           ∧ conflict_rule sd dur did b = true) ↔
   (∃ k b, store' !! k = Some b ∧ active b
           ∧ conflict_rule sd dur did' b = true)) →
  has_conflict sd dur did store = has_conflict sd dur did' store'.
Proof.
  rewrite <- !has_conflict_active. intros H.
  destruct (has_conflict sd dur did store),
    (has_conflict sd dur did' store'); try done.
  - by apply eq_sym, H.
  - by apply H.
Qed.

(** X17. [add_treatment_note] on a missing id returns false and changes
    nothing; on a stored id it appends exactly one note, after the
    earlier ones, and touches nothing that scheduling looks at: every
    conflict scan and every list of available slots is the same before
    and after. *)
Theorem add_treatment_note_frame (isoformat : Z → string) (now_t now_u : Z)
    (aid note dentist : string) (store : gmap string Appointment) :
  let r :=
    AppointmentService.add_treatment_note isoformat now_t now_u aid note
      dentist store in
  (store !! aid = None → r = (false, store))
  ∧ (∀ a, store !! aid = Some a →
       r.1 = true
       ∧ ∃ a', r.2 = <[aid := a']> store
               ∧ treatment_notes a'
                 = (treatment_notes a
                    ++ [ {| t_note := note; t_dentist_id := dentist;
                            t_timestamp := isoformat now_t |} ])%list
               ∧ status a' = status a
               ∧ notes a' = notes a)
  ∧ (∀ sd dur did,
       has_conflict sd dur did r.2 = has_conflict sd dur did store)
  ∧ (∀ date dur did,
       get_available_slots date dur did r.2
       = get_available_slots date dur did store).
Proof.
  intros r. subst r.
  unfold AppointmentService.add_treatment_note, get_appointment.
  destruct (store !! aid) as [a|] eqn:Ha; simpl.
  - assert (Hscan : ∀ sd dur did,
              has_conflict sd dur did
                (<[aid := Model.add_treatment_note isoformat now_t now_u
                            note dentist a]> store)
              = has_conflict sd dur did store).
    { intros sd dur did. apply has_conflict_eq. split.
      - intros (k & b & Hk & Hb & Hc).
        destruct (decide (k = aid)) as [->|Hne].
        + rewrite lookup_insert_eq in Hk. injection Hk as <-.
          exists aid, a. done.
        + rewrite lookup_insert_ne in Hk by done. by exists k, b.
      - intros (k & b & Hk & Hb & Hc).
        destruct (decide (k = aid)) as [->|Hne].
        + rewrite Ha in Hk. injection Hk as <-.
          exists aid, (Model.add_treatment_note isoformat now_t now_u note
                         dentist a).
          by rewrite lookup_insert_eq.
        + exists k, b. by rewrite lookup_insert_ne. }
    split; [done|]. split.
    { intros a0 [= <-]. split; [done|]. eexists. split; [done|]. done. }
    split; [done|]. intros date dur did. unfold get_available_slots.
    apply slots_loop_ext. intros s. apply Hscan.
  - split; [done|]. split; [done|]. done.
Qed.

(** X18. An empty string as dentist id is treated as no dentist: the
    conflict scan and the list of available slots (whose endpoint passes
    the empty string when the parameter is absent) are the same as for
    [None]. *)
Theorem empty_dentist_is_no_dentist (store : gmap string Appointment)
    (date sd dur : Z) :
  has_conflict sd dur (Some "") store = has_conflict sd dur None store
  ∧ get_available_slots date dur (Some "") store
    = get_available_slots date dur None store.
Proof.
  assert (H : ∀ s, has_conflict s dur (Some "") store
                   = has_conflict s dur None store).
  { intros s. unfold has_conflict. f_equal. }
  split; [apply H|]. unfold get_available_slots. by apply slots_loop_ext.
Qed.

(** X20. The listing by dentist holds only appointments whose dentist id
    is the given one.  So an active appointment of positive duration
    that has no dentist is in no dentist's list, although it blocks
    every dentist's calendar at its time: the scan reports a conflict
    there and its start is not offered as a slot. *)
Theorem no_dentist_blocks_unlisted (store : gmap string Appointment)
    (k dentist : string) (a : Appointment) :
  store !! k = Some a → dentist_id a = None → active a →
  0 < duration_minutes a →
  (a ∉ get_appointments_by_dentist dentist store)
  ∧ (∀ dur, 0 < dur →
       has_conflict (scheduled_date a) dur (Some dentist) store = true)
  ∧ (∀ date dur, 0 < dur →
       scheduled_date a ∉ get_available_slots date dur (Some dentist) store).
Proof.
  intros Hk Hd Hact Hdur.
  assert (Hscan : ∀ dur, 0 < dur →
            has_conflict (scheduled_date a) dur (Some dentist) store = true).
  { intros dur Hpos. apply has_conflict_active. exists k, a.
    split; [done|]. split; [done|]. apply conflict_rule_true. split.
    - unfold intervals_overlap, minutes, us_per_minute. lia.
    - intros (_ & (x & Hx & _) & _). congruence. }
  split; [|split; [done|]].
  - unfold get_appointments_by_dentist. rewrite filter_values_spec.
    intros [_ H]. apply bool_decide_eq_true in H. congruence.
  - intros date dur Hpos Hin. unfold get_available_slots in Hin.
    apply slots_loop_spec in Hin as (i & _ & _ & _ & Hfree).
    by rewrite Hscan in Hfree.
Qed.

Lemma no_dentist_blocks_unlisted_witness :
  let a := init 0 0 "A0001" "P0001" CLEANING (hours 10) 60 None "" in
  let store : gmap string Appointment := {[ "A0001" := a ]} in
  has_conflict (hours 10) 30 (Some "D1") store = true
  ∧ get_appointments_by_dentist "D1" store = [].
Proof.
  intros a store.
  destruct (no_dentist_blocks_unlisted store "A0001" "D1" a)
    as (_ & Hscan & _); [by vm_compute|done|by split|by vm_compute|].
  split; [by apply Hscan|by vm_compute].
Defined.

End SchedulingExtra.

(* ===================================================================== *)
(** ** Saving and loading the whole store                                 *)
(* ===================================================================== *)

Module PersistenceExtra.
Import Model AppointmentService SchedulingSpec Persistence.

Lemma from_dict_to_dict (isoformat : Z → string)
    (fromisoformat : string → option Z) (now_c now_u : Z)
    (a : Appointment) :
  dates_read_back isoformat fromisoformat a →
  create_appointment_from_dict fromisoformat now_c now_u
    (to_dict isoformat a) = Some a.
Proof.
  intros (Hsd & Hca & Hua). unfold create_appointment_from_dict.
  rewrite to_dict_appointment_id, to_dict_patient_id,
    to_dict_appointment_type, to_dict_scheduled_date,
    to_dict_duration_minutes, to_dict_dentist_id, to_dict_notes,
    to_dict_status, to_dict_created_at, to_dict_updated_at,
    to_dict_reminders_sent, to_dict_treatment_notes.
  simpl. rewrite type_of_value_type_value, Hsd. simpl.
  destruct a as [aid pid ty sd dur did nts st ca ua rs tn]; simpl in *.
  destruct did; simpl;
    rewrite status_of_value_status_value; simpl; rewrite Hca; simpl;
    rewrite Hua; done.
Qed.

(** A dictionary that is read gives an appointment with the id found
    under the key appointment_id. *)
Lemma load_loop_well_keyed (fromisoformat : string → option Z)
    (now_c now_u : Z) (entries : list (gmap string pyvalue))
    (acc : gmap string Appointment) :
  well_keyed acc →
  well_keyed (load_loop fromisoformat now_c now_u entries acc).
Proof.
  revert acc. induction entries as [|d entries IH]; intros acc Hwk; simpl;
    [done|].
  destruct (create_appointment_from_dict fromisoformat now_c now_u d)
    as [a|]; [|done].
  apply IH. intros k x Hx. destruct (decide (appointment_id a = k)) as [<-|].
  - rewrite lookup_insert_eq in Hx. by injection Hx as <-.
  - rewrite lookup_insert_ne in Hx by done. by apply Hwk.
Qed.

Lemma load_loop_all (isoformat : Z → string)
    (fromisoformat : string → option Z) (now_c now_u : Z)
    (l : list Appointment) (acc : gmap string Appointment) :
  Forall (dates_read_back isoformat fromisoformat) l →
  load_loop fromisoformat now_c now_u (to_dict isoformat <$> l) acc
  = foldl (λ m a, <[appointment_id a := a]> m) acc l.
Proof.
  revert acc. induction l as [|a l IH]; intros acc Hall; simpl; [done|].
  apply Forall_cons in Hall as [Ha Hall].
  rewrite (from_dict_to_dict _ _ _ _ _ Ha). by apply IH.
Qed.

Lemma foldl_insert_other (l : list Appointment)
    (acc : gmap string Appointment) (k : string) :
  (∀ a, a ∈ l → appointment_id a ≠ k) →
  foldl (λ m a, <[appointment_id a := a]> m) acc l !! k = acc !! k.
Proof.
  revert acc. induction l as [|x l IH]; intros acc Hno; simpl; [done|].
  rewrite IH by (intros a Ha; apply Hno; by right).
  rewrite lookup_insert_ne; [done|]. apply Hno. left.
Qed.

Lemma foldl_insert_member (l : list Appointment)
    (acc : gmap string Appointment) (a : Appointment) :
  NoDup (appointment_id <$> l) → a ∈ l →
  foldl (λ m x, <[appointment_id x := x]> m) acc l !! appointment_id a
  = Some a.
Proof.
  revert acc. induction l as [|x l IH]; intros acc Hnd Ha; simpl.
  - by apply elem_of_nil in Ha.
  - rewrite fmap_cons in Hnd. apply NoDup_cons in Hnd as [Hx Hnd].
    apply elem_of_cons in Ha as [->|Ha].
    + rewrite foldl_insert_other; [apply lookup_insert_eq|].
      intros b Hb Heq. apply Hx. rewrite <- Heq.
      by apply list_elem_of_fmap_2.
    + by apply IH.
Qed.

(** X12. Whatever the file holds, every appointment that
    [_load_appointments] stores is stored under its own id.  And saving
    then loading is the identity on a store whose keys are the ids of its
    appointments (as the service builds it), given that the library
    reads back the dates it printed. *)
Theorem save_load_roundtrip (isoformat : Z → string)
    (fromisoformat : string → option Z) (now_c now_u : Z) :
  (∀ data, well_keyed (load_appointments fromisoformat now_c now_u data))
  ∧ (∀ store : gmap string Appointment,
       well_keyed store →
       (∀ k a, store !! k = Some a →
               dates_read_back isoformat fromisoformat a) →
       load_appointments fromisoformat now_c now_u
         (save_appointments isoformat store) = store).
Proof.
  split.
  - intros data. apply load_loop_well_keyed.
    intros k a H. by rewrite lookup_empty in H.
  - intros store Hwk Hdates.
    unfold load_appointments, save_appointments.
    rewrite map_to_list_fmap, <- !list_fmap_compose.
    change (snd ∘ prod_map id (to_dict isoformat))
      with (to_dict isoformat ∘ (snd : string * Appointment → Appointment)).
    rewrite list_fmap_compose.
    assert (Hin : ∀ a, a ∈ (map_to_list store).*2 ↔
              ∃ k, store !! k = Some a).
    { intros a. rewrite list_elem_of_fmap. split.
      - intros ([k a'] & -> & Hx). exists k. by apply elem_of_map_to_list.
      - intros (k & Hk). exists (k, a). split; [done|].
        by apply elem_of_map_to_list. }
    rewrite (load_loop_all isoformat).
    2:{ apply Forall_forall. intros a (k & Hk)%Hin. by eapply Hdates. }
    assert (Hids : appointment_id <$> (map_to_list store).*2
                   = (map_to_list store).*1).
    { rewrite <- list_fmap_compose. apply list_fmap_ext.
      intros i [k a] Hi. simpl. apply Hwk.
      apply elem_of_map_to_list. by eapply list_elem_of_lookup_2. }
    apply map_eq. intros k. destruct (store !! k) as [a|] eqn:Hk.
    + rewrite <- (Hwk k a Hk). apply foldl_insert_member.
      * rewrite Hids. apply NoDup_fst_map_to_list.
      * apply Hin. eauto.
    + rewrite foldl_insert_other; [apply lookup_empty|].
      intros a (k' & Hk')%Hin Heq. rewrite (Hwk k' a Hk') in Heq.
      congruence.
Qed.

(** A store of one appointment, with a stand-in pair of printing and
    reading functions, is saved and loaded. *)
Lemma save_load_roundtrip_witness :
  let iso := λ z : Z, NilZero.string_of_int (Z.to_int z) in
  let fromiso := λ s : string, Z.of_int <$> NilZero.int_of_string s in
  let a :=
    set_status CONFIRMED
      (Model.init 17 18 "A0001" "P0001" ROOT_CANAL 36000000000 45
         (Some "D1") "bring card") in
  load_appointments fromiso 0 0 (save_appointments iso {[ "A0001" := a ]})
  = {[ "A0001" := a ]}.
Proof.
  intros iso fromiso a.
  apply (proj2 (save_load_roundtrip iso fromiso 0 0)).
  - intros k x [<- <-]%lookup_singleton_Some. reflexivity.
  - intros k x [<- <-]%lookup_singleton_Some. by vm_compute.
Defined.

End PersistenceExtra.

(* ===================================================================== *)
(** ** Further properties of intent resolution                            *)
(* ===================================================================== *)

Module IntentExtra.
Import VoiceProcessor IntentSpec Intent.
Local Open Scope nat_scope.
Local Open Scope list_scope.

Lemma starts_with_spec (p s r : list ascii) :
  starts_with p s = Some r → s = p ++ r.
Proof.
  revert s. induction p as [|a p IH]; intros s H; simpl in H.
  - by injection H as ->.
  - destruct s as [|b s]; [done|].
    destruct (Ascii.eqb_spec a b) as [->|]; [|done].
    simpl. f_equal. by apply IH.
Qed.

Lemma starts_with_app (p r : list ascii) : starts_with p (p ++ r) = Some r.
Proof.
  induction p as [|a p IH]; simpl; [done|]. by rewrite Ascii.eqb_refl.
Qed.

Lemma contains_spec (needle text : list ascii) :
  contains needle text = true ↔ substring needle text.
Proof.
  unfold substring. induction text as [|x text IH]; simpl.
  - destruct (starts_with needle []) as [r|] eqn:Hs.
    + split; [|done]. intros _. exists [], r.
      by apply starts_with_spec in Hs.
    + split; [done|]. intros (pre & post & H).
      destruct pre; [|done]. simpl in H.
      by rewrite H, starts_with_app in Hs.
  - destruct (starts_with needle (x :: text)) as [r|] eqn:Hs.
    + split; [|done]. intros _. exists [], r.
      by apply starts_with_spec in Hs.
    + rewrite IH. split.
      * intros (pre & post & ->). by exists (x :: pre), post.
      * intros (pre & post & H). destruct pre as [|y pre].
        -- simpl in H. by rewrite H, starts_with_app in Hs.
        -- injection H as -> ->. by exists pre, post.
Qed.

(** What a match hands to its continuation is a suffix of the text. *)
Lemma plus_cls_suffix (c : cclass) (s : list ascii)
    (k : list ascii → option (list ascii)) (res : list ascii) :
  plus_cls c s k = Some res → ∃ pre s', s = pre ++ s' ∧ k s' = Some res.
Proof.
  induction s as [|x s IH]; simpl; [done|].
  destruct (in_class c x); [|done].
  destruct (plus_cls c s k) as [r|] eqn:Hp.
  - intros [= <-]. destruct (IH eq_refl) as (pre & s' & -> & Hk).
    by exists (x :: pre), s'.
  - intros Hk. by exists [x], s.
Qed.

Lemma rep_cls_suffix (c : cclass) (lo hi : nat) (s : list ascii)
    (k : list ascii → option (list ascii)) (res : list ascii) :
  rep_cls c lo hi s k = Some res → ∃ pre s', s = pre ++ s' ∧ k s' = Some res.
Proof.
  assert (Hstop : ∀ lo s,
            (if Nat.eqb lo 0 then k s else None) = Some res →
            ∃ pre s', s = pre ++ s' ∧ k s' = Some res).
  { intros lo' s0 H. destruct (Nat.eqb lo' 0); [|done]. by exists [], s0. }
  revert lo s. induction hi as [|hi IH]; intros lo s; simpl.
  - apply Hstop.
  - destruct s as [|x s]; [apply Hstop|].
    destruct (in_class c x); [|apply Hstop].
    destruct (rep_cls c (Nat.pred lo) hi s k) as [r|] eqn:Hr.
    + intros [= <-]. destruct (IH _ _ Hr) as (pre & s' & -> & Hk).
      by exists (x :: pre), s'.
    + apply Hstop.
Qed.

Lemma rmatch_suffix (r : regex) (s : list ascii)
    (k : list ascii → option (list ascii)) (res : list ascii) :
  rmatch r s k = Some res → ∃ pre s', s = pre ++ s' ∧ k s' = Some res.
Proof.
  revert s k. induction r as [l|c|r1 IH1 r2 IH2|r1 IH1 r2 IH2|r IH|c|c lo hi];
    intros s k; simpl.
  - destruct (starts_with (list_ascii_of_string l) s) as [s'|] eqn:Hs;
      [|done].
    intros Hk. apply starts_with_spec in Hs. by exists (list_ascii_of_string l), s'.
  - destruct s as [|x s]; [done|]. destruct (in_class c x); [|done].
    intros Hk. by exists [x], s.
  - intros H. apply IH1 in H as (pre1 & s1 & -> & H).
    apply IH2 in H as (pre2 & s2 & -> & H).
    exists (pre1 ++ pre2), s2. by rewrite <- app_assoc.
  - destruct (rmatch r1 s k) as [x|] eqn:H1.
    + intros [= <-]. by apply IH1.
    + apply IH2.
  - destruct (rmatch r s k) as [x|] eqn:H1.
    + intros [= <-]. by apply IH.
    + intros Hk. by exists [], s.
  - apply plus_cls_suffix.
  - apply rep_cls_suffix.
Qed.

(** [group(0)] of a search is a contiguous part of the text. *)
Lemma re_search_substring (r : regex) (s g : list ascii) :
  re_search r s = Some g → substring g s.
Proof.
  unfold substring.
  assert (Hhere : ∀ s rest, rmatch r s Some = Some rest →
            ∃ pre post, s = pre ++ take (length s - length rest) s ++ post).
  { intros s0 rest H. apply rmatch_suffix in H as (pre & s' & -> & [= ->]).
    exists [], rest. simpl. rewrite length_app.
    replace (length pre + length rest - length rest) with (length pre)
      by lia.
    by rewrite take_app_length. }
  induction s as [|x s IH]; simpl.
  - destruct (rmatch r [] Some) as [rest|] eqn:Hm; [|done].
    intros [= <-]. by apply (Hhere [] rest).
  - destruct (rmatch r (x :: s) Some) as [rest|] eqn:Hm.
    + intros [= <-]. apply (Hhere (x :: s) rest Hm).
    + intros (pre & post & ->)%IH. by exists (x :: pre), post.
Qed.

Lemma first_match_substring (ps : list regex) (t g : list ascii) :
  first_match ps t = Some g → substring g t.
Proof.
  induction ps as [|p ps IH]; simpl; [done|].
  destruct (re_search p t) as [g'|] eqn:Hp; [|done].
  intros [= <-]. by eapply re_search_substring.
Qed.

Lemma first_contained_Some (ws : list string) (t : list ascii) (w : string) :
  first_contained ws t = Some w →
  w ∈ ws ∧ substring (list_ascii_of_string w) t.
Proof.
  induction ws as [|x ws IH]; simpl; [done|].
  destruct (contains (list_ascii_of_string x) t) eqn:Hc.
  - intros [= <-]. split; [left|]. by apply contains_spec.
  - intros [H1 H2]%IH. split; [by right|done].
Qed.

Lemma first_contained_None (ws : list string) (t : list ascii) :
  first_contained ws t = None ↔
  ∀ w, w ∈ ws → ¬ substring (list_ascii_of_string w) t.
Proof.
  induction ws as [|x ws IH]; simpl.
  - split; [|done]. intros _ w Hw. by apply elem_of_nil in Hw.
  - destruct (contains (list_ascii_of_string x) t) eqn:Hc.
    + split; [done|]. intros H. exfalso. apply (H x); [left|].
      by apply contains_spec.
    + rewrite IH. split.
      * intros H w [->|Hw]%elem_of_cons; [|by apply H].
        rewrite <- contains_spec. by rewrite Hc.
      * intros H w Hw. apply H. by right.
Qed.

Lemma scan_intents_Some (table : list (string * list regex))
    (t : list ascii) (i : string) (e : gmap string string) :
  scan_intents table t = Some (i, e) →
  i ∈ table.*1 ∧ e = extract_entities t i.
Proof.
  induction table as [|[j ps] table IH]; simpl; [done|].
  destruct (any_pattern ps t).
  - intros [= <- <-]. split; [left|done].
  - intros [H1 H2]%IH. split; [by right|done].
Qed.

(** The result of [extract_intent], by cases. *)
Lemma extract_intent_cases (text : string) :
  let t := normalise text in
  (extract_intent text
   = ("general_inquiry"%string,
      {[ "query"%string := string_of_list_ascii t ]}))
  ∨ ∃ i, i ∈ intent_patterns.*1
         ∧ extract_intent text = (i, extract_entities t i).
Proof.
  intros t. unfold extract_intent. fold (normalise text). fold t.
  destruct (scan_intents intent_patterns t) as [[i e]|] eqn:Hs.
  - right. apply scan_intents_Some in Hs as [Hi ->]. eauto.
  - by left.
Qed.

Ltac intent_cases H :=
  rewrite intent_names in H;
  repeat (apply elem_of_cons in H as [->|H]);
  [..|by apply elem_of_nil in H].

(** X13. [extract_intent] answers with one of seven intents.  The
    fallback carries the normalised text under query and nothing else;
    every other answer carries it under original_text.  An urgency level
    is present exactly for emergency, and is high or medium. *)
Theorem extract_intent_closed (text : string) :
  let t := string_of_list_ascii (normalise text) in
  let r := extract_intent text in
  r.1 ∈ known_intents
  ∧ (r.1 = "general_inquiry"%string → r.2 = {[ "query"%string := t ]})
  ∧ (r.1 ≠ "general_inquiry"%string →
     r.2 !! "original_text"%string = Some t
     ∧ r.2 !! "query"%string = None)
  ∧ (r.1 = "emergency"%string ↔ is_Some (r.2 !! "urgency_level"%string))
  ∧ (∀ v, r.2 !! "urgency_level"%string = Some v →
          v = "high"%string ∨ v = "medium"%string).
Proof.
  intros t r. subst r t.
  destruct (extract_intent_cases text) as [->|(i & Hi & ->)]; simpl.
  - split; [unfold known_intents; set_solver|]. split; [done|].
    split; [done|]. split; [|by intros v [[=] _]%lookup_singleton_Some].
    split; [done|]. by intros [v [[=] _]%lookup_singleton_Some].
  - intent_cases Hi; unfold extract_entities;
      cbn -[first_match first_contained date_patterns keywords
            insurance_providers urgency_words];
      repeat match goal with
        | |- context [first_match ?a ?b] => destruct (first_match a b)
        | |- context [first_contained ?a ?b] => destruct (first_contained a b)
        end;
      (split; [unfold known_intents; set_solver|]);
      (split; [done|]);
      (split; [intros _; by simplify_map_eq|]);
      (split; [split; [try done; intros _; by simplify_map_eq
                      |try done; intros [v Hv]; by simplify_map_eq]|]);
      intros v Hv; simplify_map_eq; auto.
Qed.

(** X14. What is extracted occurs in the utterance: a preferred time is
    a contiguous part of the normalised text and is only given for
    schedule_appointment; a service type is one of the service keywords,
    an insurance provider one of the known providers, and each occurs in
    the normalised text. *)
Theorem entities_occur_in_text (text : string) :
  let t := normalise text in
  let r := extract_intent text in
  (∀ v, r.2 !! "preferred_time"%string = Some v →
        r.1 = "schedule_appointment"%string
        ∧ substring (list_ascii_of_string v) t)
  ∧ (∀ v, r.2 !! "service_type"%string = Some v →
          (r.1 = "schedule_appointment"%string
           ∨ r.1 = "service_inquiry"%string)
          ∧ v ∈ keywords "services"
          ∧ substring (list_ascii_of_string v) t)
  ∧ (∀ v, r.2 !! "insurance_provider"%string = Some v →
          r.1 = "insurance_inquiry"%string
          ∧ v ∈ insurance_providers
          ∧ substring (list_ascii_of_string v) t).
Proof.
  intros t r. subst r.
  destruct (extract_intent_cases text) as [->|(i & Hi & ->)]; simpl.
  - split; [|split]; by intros v [[=] _]%lookup_singleton_Some.
  - fold t. intent_cases Hi; unfold extract_entities;
      cbn -[first_match first_contained date_patterns keywords
            insurance_providers urgency_words].
    all: repeat match goal with
           | |- context [first_match ?a ?b] =>
               let H := fresh "Hfm" in destruct (first_match a b) eqn:H
           | |- context [first_contained ?a ?b] =>
               let H := fresh "Hfc" in destruct (first_contained a b) eqn:H
           end.
    all: repeat match goal with
           | H : first_match _ _ = Some _ |- _ =>
               apply first_match_substring in H
           | H : first_contained _ _ = Some _ |- _ =>
               apply first_contained_Some in H as [? ?]
           end.
    all: (split; [|split]); intros v Hv; simplify_map_eq;
      rewrite ?list_ascii_of_string_of_list_ascii; auto.
Qed.

Lemma emergency_responses_differ :
  emergency_line_response ≠ emergency_booking_response.
Proof. intros [=]. Qed.

(** X15. A non-empty text whose intent is emergency is answered, without
    listening, by one of two messages: the emergency telephone line if
    the normalised text contains one of the severity words (severe, bad,
    terrible, excruciating, unbearable), the booking question
    otherwise. *)
Theorem emergency_answer (text : string) (heard : option string) :
  nonempty text = true →
  (extract_intent text).1 = "emergency"%string →
  ∃ entities response,
    process_voice_query (Some text) heard
    = QuerySuccess text "emergency" entities response
    ∧ (response = emergency_line_response ↔
       ∃ w, w ∈ urgency_words
            ∧ substring (list_ascii_of_string w) (normalise text))
    ∧ (response = emergency_line_response
       ∨ response = emergency_booking_response).
Proof.
  intros Hne Hi. unfold process_voice_query. rewrite Hne. cbn iota.
  rewrite Hne.
  destruct (extract_intent_cases text) as [H|(i & _ & H)];
    rewrite H in *; simpl in Hi; [done|]. subst i.
  eexists _, _. split; [reflexivity|].
  unfold extract_entities, generate_response, generate_emergency_response,
    get_default.
  cbn -[first_contained urgency_words emergency_line_response
        emergency_booking_response].
  destruct (first_contained urgency_words (normalise text)) as [w|] eqn:Hw.
  - rewrite lookup_insert_eq. cbn -[urgency_words emergency_line_response
                                     emergency_booking_response].
    split; [|by left]. split; [|done]. intros _.
    apply first_contained_Some in Hw as [? ?]. eauto.
  - rewrite lookup_insert_eq. cbn -[urgency_words emergency_line_response
                                     emergency_booking_response].
    split; [|by right]. split.
    + intros Heq. by apply eq_sym, emergency_responses_differ in Heq.
    + intros (w & Hin & Hsub). exfalso.
      by apply (proj1 (first_contained_None _ _) Hw w Hin).
Qed.

Lemma space_not_upper (c : ascii) : is_space c = true → lower_char c = c.
Proof.
  destruct c as [b0 b1 b2 b3 b4 b5 b6 b7].
  destruct b0, b1, b2, b3, b4, b5, b6, b7; intros H;
    first [reflexivity | discriminate H].
Qed.

Lemma lower_spaces (l : list ascii) :
  Forall (λ c, is_space c = true) l → lower l = l.
Proof.
  induction 1 as [|x l Hx Hl IH]; [done|].
  unfold lower in *. simpl. by rewrite IH, space_not_upper.
Qed.

Lemma lstrip_spaces_app (l s : list ascii) :
  Forall (λ c, is_space c = true) l → lstrip (l ++ s) = lstrip s.
Proof. induction 1 as [|x l Hx Hl IH]; [done|]. simpl. by rewrite Hx. Qed.

Lemma lstrip_nil_spaces (m : list ascii) :
  lstrip m = [] → Forall (λ c, is_space c = true) m.
Proof.
  induction m as [|x m IH]; simpl; [by constructor|].
  destruct (is_space x) eqn:Hx; [|done]. intros H. constructor; auto.
Qed.

Lemma lstrip_app_nonempty (m r : list ascii) :
  lstrip m ≠ [] → lstrip (m ++ r) = lstrip m ++ r.
Proof.
  induction m as [|x m IH]; simpl; [done|].
  destruct (is_space x); [apply IH|done].
Qed.

(** White space around a text does not change what [strip] gives. *)
Lemma strip_padding (l m r : list ascii) :
  Forall (λ c, is_space c = true) l →
  Forall (λ c, is_space c = true) r →
  strip (l ++ m ++ r) = strip m.
Proof.
  intros Hl Hr. unfold strip. rewrite (lstrip_spaces_app l _ Hl).
  destruct (decide (lstrip m = [])) as [Hm|Hm].
  - rewrite Hm.
    assert (Hall : Forall (λ c, is_space c = true) (m ++ r))
      by (apply Forall_app; split; [by apply lstrip_nil_spaces|done]).
    rewrite <- (app_nil_r (m ++ r)), (lstrip_spaces_app _ [] Hall). done.
  - rewrite (lstrip_app_nonempty m r Hm), reverse_app.
    by rewrite lstrip_spaces_app by (by apply Forall_reverse).
Qed.

(** X16. The answer of [extract_intent] depends neither on the case of
    the letters nor on white space before and after the text. *)
Theorem extract_intent_case_and_padding (text text' : string)
    (l r : list ascii) :
  Forall (λ c, is_space c = true) l →
  Forall (λ c, is_space c = true) r →
  lower (list_ascii_of_string text') = lower (list_ascii_of_string text) →
  extract_intent
    (string_of_list_ascii (l ++ list_ascii_of_string text' ++ r))
  = extract_intent text.
Proof.
  intros Hl Hr Hcase. unfold extract_intent.
  rewrite list_ascii_of_string_of_list_ascii.
  assert (Hn : strip (lower (l ++ list_ascii_of_string text' ++ r))
               = strip (lower (list_ascii_of_string text))).
  { unfold lower in *. rewrite !map_app.
    change (map lower_char l) with (lower l).
    change (map lower_char r) with (lower r).
    rewrite (lower_spaces l Hl), (lower_spaces r Hr), Hcase.
    by apply strip_padding. }
  by rewrite Hn.
Qed.

Lemma emergency_answer_witness :
  ∃ entities,
    process_voice_query (Some "My tooth is in terrible pain") None
    = QuerySuccess "My tooth is in terrible pain" "emergency" entities
        emergency_line_response.
Proof.
  destruct (emergency_answer "My tooth is in terrible pain" None)
    as (e & resp & Heq & Hline & _); [by vm_compute|by vm_compute|].
  exists e. rewrite Heq. f_equal. apply Hline.
  exists "terrible"%string.
  split; [apply list_elem_of_In; vm_compute; auto 10|].
  apply contains_spec. by vm_compute.
Defined.

Lemma extract_intent_case_and_padding_witness :
  extract_intent
    (string_of_list_ascii
       ([" "; " "]%char ++ list_ascii_of_string "BOOK an Appointment"
          ++ ["010"]%char))
  = extract_intent "book an appointment".
Proof.
  apply extract_intent_case_and_padding.
  - by repeat constructor.
  - by repeat constructor.
  - by vm_compute.
Defined.

End IntentExtra.

(* ===================================================================== *)
(** ** The update endpoint                                                *)
(* ===================================================================== *)

Module ApiExtra.
Import Time Model AppointmentService AppointmentApi SchedulingSpec
  Scheduling Persistence.

Lemma nonempty_data (data : gmap string pyvalue) (k : string) (v : pyvalue) :
  data !! k = Some v → bool_decide (data = ∅) = false.
Proof.
  intros Hk. apply bool_decide_eq_false. intros ->.
  by rewrite lookup_empty in Hk.
Qed.

Ltac answer :=
  solve [ simpl; rewrite ?lookup_insert_eq; simpl;
          split; intros Hcode; simpl in Hcode;
          first [ discriminate Hcode | done | by eauto
                | by (rewrite lookup_insert_eq; eauto) ] ].

(** X19. The update endpoint applies a status change before it tries to
    reschedule, and does not undo it: a request with a valid status and
    a date that conflicts with another active appointment is answered
    409, and one with a valid status and a date string that cannot be
    read is answered 400, while the new status stays stored.  For an id
    that is not stored, a request with a valid status is answered 404,
    one with only a readable date 409, and one with neither key 500.  An
    answer 404 leaves the store as it was, and an answer 200 means the id
    is stored. *)
Theorem update_appointment_answers (fromisoformat : string → option Z)
    (now_s now_r : Z) (aid : string) (store : gmap string Appointment) :
  (∀ data a st d nd k b,
     store !! aid = Some a →
     data !! "status" = Some (PyStr (status_value st)) →
     data !! "scheduled_date" = Some (PyStr d) →
     fromisoformat d = Some nd →
     k ≠ aid → store !! k = Some b → active b →
     conflict_rule nd (duration_minutes a) (dentist_id a) b = true →
     update_appointment fromisoformat now_s now_r aid (Some data) store
     = (409, <[aid := update_status now_s st a]> store))
  ∧ (∀ data a st d,
       store !! aid = Some a →
       data !! "status" = Some (PyStr (status_value st)) →
       data !! "scheduled_date" = Some (PyStr d) →
       fromisoformat d = None →
       update_appointment fromisoformat now_s now_r aid (Some data) store
       = (400, <[aid := update_status now_s st a]> store))
  ∧ (∀ data st,
       store !! aid = None →
       data !! "status" = Some (PyStr (status_value st)) →
       update_appointment fromisoformat now_s now_r aid (Some data) store
       = (404, store))
  ∧ (∀ data d nd,
       store !! aid = None →
       data !! "status" = None →
       data !! "scheduled_date" = Some (PyStr d) →
       fromisoformat d = Some nd →
       update_appointment fromisoformat now_s now_r aid (Some data) store
       = (409, store))
  ∧ (∀ data,
       store !! aid = None →
       data ≠ ∅ →
       data !! "status" = None →
       data !! "scheduled_date" = None →
       update_appointment fromisoformat now_s now_r aid (Some data) store
       = (500, store))
  ∧ (∀ data,
       let r :=
         update_appointment fromisoformat now_s now_r aid data store in
       (r.1 = 404 → r.2 = store)
       ∧ (r.1 = 200 → is_Some (r.2 !! aid))).
Proof.
  split; [|split; [|split; [|split; [|split]]]].
  - intros data a st d nd k b Ha Hst Hd Hnd Hne Hb Hact Hc.
    unfold update_appointment.
    rewrite (nonempty_data _ _ _ Hst), Hst. simpl.
    rewrite status_of_value_status_value.
    unfold update_appointment_status, get_appointment. rewrite Ha.
    rewrite Hd, Hnd.
    unfold reschedule_appointment, get_appointment.
    rewrite lookup_insert_eq. simpl.
    assert (Hscan : has_conflict nd (duration_minutes a) (dentist_id a)
                      (<[aid := update_status now_s st a]> store) = true).
    { apply has_conflict_active. exists k, b.
      by rewrite lookup_insert_ne. }
    by rewrite Hscan.
  - intros data a st d Ha Hst Hd Hnd. unfold update_appointment.
    rewrite (nonempty_data _ _ _ Hst), Hst. simpl.
    rewrite status_of_value_status_value.
    unfold update_appointment_status, get_appointment. rewrite Ha.
    by rewrite Hd, Hnd.
  - intros data st Ha Hst. unfold update_appointment.
    rewrite (nonempty_data _ _ _ Hst), Hst. simpl.
    rewrite status_of_value_status_value.
    unfold update_appointment_status, get_appointment. by rewrite Ha.
  - intros data d nd Ha Hst Hd Hnd. unfold update_appointment.
    rewrite (nonempty_data _ _ _ Hd), Hst, Hd, Hnd.
    unfold reschedule_appointment, get_appointment. by rewrite Ha.
  - intros data Ha Hne Hst Hd. unfold update_appointment.
    rewrite bool_decide_eq_false_2 by done.
    rewrite Hst, Hd. unfold get_appointment. by rewrite Ha.
  - intros data r. subst r. unfold update_appointment.
    destruct data as [data|]; [|answer].
    case_bool_decide; [answer|].
    unfold update_appointment_status, reschedule_appointment,
      get_appointment.
    destruct (data !! "status") as [v|];
      [destruct (as_str v ≫= status_of_value) as [st|];
       [destruct (store !! aid) as [a|] eqn:Ha|]|];
      try answer.
    + rewrite ?lookup_insert_eq.
      destruct (data !! "scheduled_date") as [[|s|n|l|l]|]; try answer.
      destruct (fromisoformat s) as [nd|]; [|answer].
      destruct (has_conflict _ _ _ _); answer.
    + destruct (data !! "scheduled_date") as [[|s|n|l|l]|]; try answer.
      * destruct (fromisoformat s) as [nd|]; [|answer].
        destruct (store !! aid) as [a|] eqn:Ha; [|answer].
        destruct (has_conflict _ _ _ _); answer.
      * destruct (store !! aid) as [a|] eqn:Ha; answer.
Qed.

End ApiExtra.
